(** * A shallow embedding of the MESH chunked message client

    The development follows the JavaScript modules of the client:
    - the send module ([CHUNK_SIZE], [compressData], [splitIntoChunks],
      [sendChunkedMessage]),
    - [read_message.js] ([readMessage]),
    - [message_count.js] ([getMessageCount]).

    Buffers are lists of bytes, JavaScript numbers that the code uses as
    indices are integers, header sets and JSON objects are finite maps with
    string keys.  The asynchronous functions run strictly sequentially (every
    call is awaited), so they are embedded in a state-and-exception monad over
    a [World] that records the requests handed to axios, the number of
    invocations of the header provider and the error-level diagnostics. *)

From Stdlib Require Import ZArith Lia Strings.Byte Strings.Ascii.
From stdpp Require Import gmap strings list pretty.
From Equations Require Import Equations.

#[local] Set Warnings "-register-all".
#[local] Open Scope Z_scope.

(** ** Buffers and the chunk splitter *)

Definition Buffer := list byte.

(** [const CHUNK_SIZE = 10 * 1024 * 1024], that is 10485760 bytes. *)
Definition CHUNK_SIZE : Z := 10 * 1024 * 1024.

(** Index normalisation of [Buffer.prototype.slice]: a negative index counts
    from the end, and the result is clamped to [0, len]. *)
Definition clampIndex (len i : Z) : Z :=
  if i <? 0 then Z.max 0 (len + i) else Z.min i len.

(** [buffer.slice(start, end)] *)
Definition slice (buffer : Buffer) (start stop : Z) : Buffer :=
  let len := Z.of_nat (length buffer) in
  let s := clampIndex len start in
  let e := clampIndex len stop in
  take (Z.to_nat (e - s)) (drop (Z.to_nat s) buffer).

(** The loop of [splitIntoChunks]:
    [for (let i = 0; i < buffer.length; i += CHUNK_SIZE)
       chunks.push(buffer.slice(i, i + CHUNK_SIZE));]
    started at the counter [i] with the array [chunks] built so far. *)
Equations? splitLoop (buffer : Buffer) (i : Z) (chunks : list Buffer)
  : list Buffer by wf (Z.to_nat (Z.of_nat (length buffer) - i)) lt :=
  splitLoop buffer i chunks with decide (i < Z.of_nat (length buffer)) => {
    | left _ :=
        splitLoop buffer (i + CHUNK_SIZE)
                  (chunks ++ [slice buffer i (i + CHUNK_SIZE)]);
    | right _ := chunks }.
Proof. unfold CHUNK_SIZE. lia. Qed.

Definition splitIntoChunks (buffer : Buffer) : list Buffer :=
  splitLoop buffer 0 [].

(** Every chunk of [chunks] has exactly [CHUNK_SIZE] bytes. *)
Definition full (chunks : list Buffer) : Prop :=
  forall c, c ∈ chunks -> Z.of_nat (length c) = CHUNK_SIZE.

(** The chunk bound: a front of full chunks and a last chunk of between 1
    and [CHUNK_SIZE] bytes. *)
Definition bounded (chunks : list Buffer) : Prop :=
  exists front final,
    chunks = front ++ [final] /\ full front
    /\ 0 < Z.of_nat (length final) <= CHUNK_SIZE.

(** ** JavaScript values

    The values a response body ([response.data]) and a property of it range
    over: [undefined], [null], a string, or an object (a finite map from
    property names to values).  Numeric, boolean and array bodies are left
    out of the model. *)

Inductive JSValue :=
| JUndefined
| JNull
| JStr (s : string)
| JObj (props : gmap string JSValue).

(** ToBoolean, as used by [if (response.data)] and [if (messageID)]. *)
Definition truthy (v : JSValue) : bool :=
  match v with
  | JUndefined | JNull => false
  | JStr s => negb (bool_decide (s = EmptyString))
  | JObj _ => true
  end.

(** ToString, as used by template literals and by [+=] on a string. *)
Definition toString (v : JSValue) : string :=
  match v with
  | JUndefined => "undefined"
  | JNull => "null"
  | JStr s => s
  | JObj _ => "[object Object]"
  end.

(** *** Numbers read from a header

    [Number(s)] on the integer fragment of StringToNumber: surrounding ASCII
    white space is dropped, the empty string is 0, an optionally signed run of
    decimal digits is that integer, anything else is [NaN].  Literals with a
    fraction, an exponent or a radix prefix and [Infinity], which StringToNumber
    also accepts, are outside this fragment: the model reads them as [NaN],
    JavaScript as the number they denote.  The integers are exact, as doubles
    are up to 2^53; beyond it JavaScript rounds, and from 10^21 on it prints
    an exponent, which the model does not follow.

    So [Number], [lessThan], [plusOne] and [numberToString] agree with
    JavaScript on the fields that [plainField] (below) delimits: the empty
    field, the decimal numerals of safe integers, and the fields that cannot
    be numeric.  The properties below that depend on the number read from a
    header value sent by a server are stated for such fields; where the
    numbers of a range are positions in, or the length of, a list of chunks or
    responses, they are decimal numerals by construction. *)

Inductive JSNumber :=
| NaN
| Num (z : Z).

Definition isWhiteSpace (c : ascii) : bool :=
  match c with
  | " " | "009" | "010" | "011" | "012" | "013" => true
  | _ => false
  end%char.

Fixpoint trimStart (s : string) : string :=
  match s with
  | EmptyString => EmptyString
  | String c rest => if isWhiteSpace c then trimStart rest else s
  end.

Fixpoint trimEnd (s : string) : string :=
  match s with
  | EmptyString => EmptyString
  | String c rest =>
      match trimEnd rest with
      | EmptyString => if isWhiteSpace c then EmptyString else String c EmptyString
      | kept => String c kept
      end
  end.

Definition digitValue (c : ascii) : option N :=
  let n := N_of_ascii c in
  if ((48 <=? n) && (n <=? 57))%N then Some (n - 48)%N else None.

Fixpoint parseDigits (acc : N) (s : string) : option N :=
  match s with
  | EmptyString => Some acc
  | String c rest =>
      match digitValue c with
      | Some d => parseDigits (acc * 10 + d) rest
      | None => None
      end
  end.

Definition parseUnsigned (s : string) : option N :=
  match s with
  | EmptyString => None
  | _ => parseDigits 0 s
  end.

Definition Number (s : string) : JSNumber :=
  match trimEnd (trimStart s) with
  | EmptyString => Num 0
  | String "+" digits => from_option (fun n => Num (Z.of_N n)) NaN (parseUnsigned digits)
  | String "-" digits => from_option (fun n => Num (- Z.of_N n)) NaN (parseUnsigned digits)
  | digits => from_option (fun n => Num (Z.of_N n)) NaN (parseUnsigned digits)
  end.

(** [a < b] on two destructured array elements; [None] is [undefined], which
    ToNumber turns into [NaN], and a comparison with [NaN] is false. *)
Definition lessThan (a b : option JSNumber) : bool :=
  match a, b with
  | Some (Num x), Some (Num y) => bool_decide (x < y)
  | _, _ => false
  end.

(** [a + 1] *)
Definition plusOne (a : option JSNumber) : JSNumber :=
  match a with
  | Some (Num x) => Num (x + 1)
  | _ => NaN
  end.

(** A number inside a template literal. *)
Definition numberToString (n : JSNumber) : string :=
  match n with
  | NaN => "NaN"
  | Num z => pretty z
  end.

(** [s.split(sep)] for a separator of one character. *)
Fixpoint split (sep : ascii) (s : string) : list string :=
  match s with
  | EmptyString => [EmptyString]
  | String c rest =>
      if decide (c = sep) then EmptyString :: split sep rest
      else match split sep rest with
           | [] => [String c EmptyString]
           | field :: fields => String c field :: fields
           end
  end.

(** ** Requests, responses and errors *)

(** The [https.Agent] handed through to axios; opaque to this client. *)
Inductive Agent := HttpsAgent (name : string).

Module Config.
(** The axios request config object.  An absent key is [None]. *)
Record t := mk {
  headers : gmap string string;
  httpsAgent : option Agent;
  setTimeout : option Z }.
End Config.

Inductive Method := GET | POST.

Module Request.
(** One call [axios.get(url, config)] or [axios.post(url, data, config)]. *)
Record t := mk {
  method : Method;
  url : string;
  data : option Buffer;
  config : Config.t }.
End Request.

Module Response.
Record t := mk {
  status : Z;
  statusText : string;
  data : JSValue;
  headers : gmap string string }.
End Response.

(** The ways an axios call rejects, told apart as the [catch] of
    [sendChunkedMessage] does: [error.response] is set (the server answered
    with a status that axios refuses), [error.request] is set (no response was
    received), or neither (the request could not be set up). *)
Inductive AxiosError :=
| WithResponse (response : Response.t)
| WithRequest
| SetupFailed (message : string).

Inductive JSError :=
| FromAxios (e : AxiosError)
| TypeError (message : string).

Inductive Reply :=
| Resolve (response : Response.t)
| Reject (e : AxiosError).

(** Error-level output: [log.error] and [console.error]. *)
Inductive Diagnostic :=
| LogError (text : string)
| ConsoleError (text : string)
| ConsoleErrorObject (e : JSError).

(** [value[key]]: reading a property of [undefined] or [null] throws a
    TypeError; a string has no property of the names used here. *)
Definition getProperty (value : JSValue) (key : string) : JSError + JSValue :=
  match value with
  | JUndefined =>
      inl (TypeError ("Cannot read properties of undefined (reading '" +:+ key +:+ "')"))
  | JNull =>
      inl (TypeError ("Cannot read properties of null (reading '" +:+ key +:+ "')"))
  | JStr _ => inr JUndefined
  | JObj props => inr (default JUndefined (props !! key))
  end.

(** ** The collaborators and the world

    What the client consumes and does not define: gzip compression, the header
    provider, and the HTTP transport with the server behind it.  The header
    provider is not a pure function (its result embeds a nonce and a time
    stamp); its last argument is the number of earlier invocations.  The
    transport answers a request knowing the requests made before it. *)

Record Env := mkEnv {
  gzip : Buffer -> Buffer;
  generateHeaders : string -> string -> string -> nat -> gmap string string;
  axios : list Request.t -> Request.t -> Reply }.

Record World := mkWorld {
  issued : list Request.t;
  headerCalls : nat;
  diagnostics : list Diagnostic }.

Definition initial : World := mkWorld [] 0 [].

(** How a computation ends: it returns, it throws (a rejected promise), the
    process exits ([process.exit]), or the model ran out of loop fuel. *)
Inductive Outcome (A : Type) :=
| Returned (a : A)
| Thrown (e : JSError)
| Exited (code : Z)
| OutOfFuel.
Arguments Returned {A} a.
Arguments Thrown {A} e.
Arguments Exited {A} code.
Arguments OutOfFuel {A}.

Definition Eff (A : Type) : Type := World -> Outcome A * World.

Definition ret {A} (a : A) : Eff A := fun w => (Returned a, w).

Definition bind {A B} (m : Eff A) (k : A -> Eff B) : Eff B :=
  fun w =>
    match m w with
    | (Returned a, w') => k a w'
    | (Thrown e, w') => (Thrown e, w')
    | (Exited code, w') => (Exited code, w')
    | (OutOfFuel, w') => (OutOfFuel, w')
    end.

Notation "'let!' x ':=' m 'in' k" := (bind m (fun x => k))
  (at level 10, x pattern, m at level 100, k at level 200).
Notation "m ';;;' k" := (bind m (fun _ => k))
  (at level 100, k at level 200, right associativity).

Definition throw {A} (e : JSError) : Eff A := fun w => (Thrown e, w).

(** [process.exit(code)]: nothing catches it. *)
Definition processExit {A} (code : Z) : Eff A := fun w => (Exited code, w).

Definition outOfFuel {A} : Eff A := fun w => (OutOfFuel, w).

(** [try { body } catch (error) { handler }] *)
Definition tryCatch {A} (body : Eff A) (handler : JSError -> Eff A) : Eff A :=
  fun w =>
    match body w with
    | (Thrown e, w') => handler e w'
    | other => other
    end.

Definition liftThrow {A} (r : JSError + A) : Eff A :=
  match r with
  | inl e => throw e
  | inr a => ret a
  end.

Definition report (d : Diagnostic) : Eff unit :=
  fun w => (Returned tt,
            mkWorld (issued w) (headerCalls w) (diagnostics w ++ [d])).

(** [await generateHeaders(...)] *)
Definition callGenerateHeaders (env : Env)
    (mailboxID mailboxPassword sharedKey : string) : Eff (gmap string string) :=
  fun w => (Returned (generateHeaders env mailboxID mailboxPassword sharedKey
                                      (headerCalls w)),
            mkWorld (issued w) (S (headerCalls w)) (diagnostics w)).

(** [await axios.get(...)] and [await axios.post(...)]: the request is
    recorded, and the call resolves with a response or rejects. *)
Definition callAxios (env : Env) (request : Request.t) : Eff Response.t :=
  fun w =>
    let w' := mkWorld (issued w ++ [request]) (headerCalls w) (diagnostics w) in
    match axios env (issued w) request with
    | Resolve response => (Returned response, w')
    | Reject e => (Thrown (FromAxios e), w')
    end.

Definition axiosGet (env : Env) (url : string) (config : Config.t)
  : Eff Response.t :=
  callAxios env (Request.mk GET url None config).

Definition axiosPost (env : Env) (url : string) (data : Buffer)
    (config : Config.t) : Eff Response.t :=
  callAxios env (Request.mk POST url (Some data) config).

(** ** [sendChunkedMessage] *)

Module SendParams.
Record t := mk {
  url : string;
  mailboxID : string;
  mailboxPassword : string;
  sharedKey : string;
  mailboxTarget : string;
  agent : option Agent;
  fileContent : Buffer }.
End SendParams.

Module TransferResult.
(** [{ status, data }]; the status is [null] ([None]) or a number. *)
Record t := mk {
  status : option Z;
  data : JSValue }.
End TransferResult.

(** [compressData]: gzip of a Buffer; zlib is taken not to fail on one. *)
Definition compressData (env : Env) (data : Buffer) : Buffer := gzip env data.

(** The seven assignments [headers["..."] = ...] of the upload loop, in the
    order of the source, for the chunk at the 0-based [index] of [total]. *)
Definition uploadHeaders (p : SendParams.t) (headers : gmap string string)
    (index total : nat) : gmap string string :=
  <["content-encoding" := "gzip"]>
  (<["mex-chunk-range" := pretty (index + 1)%nat +:+ ":" +:+ pretty total]>
  (<["mex-filename" := "message.txt.gz"]>
  (<["mex-workflowid" := "API-DOCS-TEST"]>
  (<["mex-to" := SendParams.mailboxTarget p]>
  (<["mex-from" := SendParams.mailboxID p]>
  (<["content-type" := "application/octet-stream"]> headers)))))).

Definition outboxUrl (p : SendParams.t) : string :=
  SendParams.url p +:+ "/messageexchange/" +:+ SendParams.mailboxID p
  +:+ "/outbox".

Definition outboxChunkUrl (p : SendParams.t) (messageID : JSValue)
    (index : nat) : string :=
  SendParams.url p +:+ "/messageexchange/" +:+ SendParams.mailboxID p
  +:+ "/outbox/" +:+ toString messageID +:+ "/" +:+ pretty (index + 1)%nat.

(** The request of one iteration of the upload loop. *)
Definition uploadRequest (p : SendParams.t) (headers : gmap string string)
    (messageID : JSValue) (index total : nat) (data : Buffer) : Request.t :=
  let headers := uploadHeaders p headers index total in
  let config := Config.mk headers (SendParams.agent p) (Some 10000) in
  let fullUrl := if truthy messageID then outboxChunkUrl p messageID index
                 else outboxUrl p in
  Request.mk POST fullUrl (Some data) config.

(** [for (let [index, data] of chunks.entries()) { ... }], from the chunk at
    [index] on; [total] is [chunks.length], and [result] and [messageID] are
    the variables of the enclosing function.  The assignment
    [response = response.data] after the identifier is taken has no effect
    (the variable is not read again) and is left out, as are the [log.debug]
    lines. *)
Fixpoint uploadLoop (env : Env) (p : SendParams.t) (total index : nat)
    (chunks : list Buffer) (result : TransferResult.t) (messageID : JSValue)
  : Eff TransferResult.t :=
  match chunks with
  | [] => ret result
  | data :: rest =>
      let! headers := callGenerateHeaders env (SendParams.mailboxID p)
                        (SendParams.mailboxPassword p) (SendParams.sharedKey p) in
      let! response :=
        callAxios env (uploadRequest p headers messageID index total data) in
      if decide (Response.status response = 202) then
        let result :=
          if truthy (Response.data response)
          then TransferResult.mk (Some (Response.status response))
                                 (Response.data response)
          else result in
        if truthy messageID then
          uploadLoop env p total (S index) rest result messageID
        else
          let! messageID :=
            liftThrow (getProperty (Response.data response) "message_id") in
          uploadLoop env p total (S index) rest result messageID
      else
        report (ConsoleError
          ("ERROR: Request 'sendMessageChunks' completed but responded with incorrect status: "
           +:+ pretty (Response.status response))) ;;;
        processExit 1
  end.

(** The [catch] of [sendChunkedMessage]: three log lines, one return. *)
Definition sendCatch (error : JSError) : Eff (TransferResult.t + JSError) :=
  match error with
  | FromAxios (WithResponse response) =>
      report (LogError ("Request failed with status code "
                        +:+ pretty (Response.status response) +:+ ": "
                        +:+ Response.statusText response)) ;;;
      ret (inr error)
  | FromAxios WithRequest =>
      report (LogError "No response was received for the request") ;;;
      ret (inr error)
  | FromAxios (SetupFailed message) | TypeError message =>
      report (LogError ("Error: " +:+ message)) ;;;
      ret (inr error)
  end.

Definition sendChunkedMessage (env : Env) (p : SendParams.t)
  : Eff (TransferResult.t + JSError) :=
  tryCatch
    (let result := TransferResult.mk None JNull in
     let splitChunks := splitIntoChunks (SendParams.fileContent p) in
     let chunks := map (compressData env) splitChunks in
     let! result := uploadLoop env p (length chunks) 0 chunks result JUndefined in
     ret (inl result))
    sendCatch.

(** ** [readMessage] *)

Module ReadParams.
Record t := mk {
  url : string;
  mailboxID : string;
  mailboxPassword : string;
  sharedKey : string;
  messageID : string;
  tlsEnabled : bool;
  agent : option Agent }.
End ReadParams.

(** What [readMessage] returns: the response itself (status 200), or the
    object [{ status: 206, data: chunkedMessage }]. *)
Inductive ReadResult :=
| Whole (response : Response.t)
| Assembled (status : Z) (data : string).

(** [let config = { headers: headers }; if (tlsEnabled) config.httpsAgent = agent;] *)
Definition readConfig (p : ReadParams.t) (headers : gmap string string)
  : Config.t :=
  Config.mk headers
            (if ReadParams.tlsEnabled p then ReadParams.agent p else None)
            None.

Definition inboxUrl (p : ReadParams.t) : string :=
  ReadParams.url p +:+ "/messageexchange/" +:+ ReadParams.mailboxID p
  +:+ "/inbox/" +:+ ReadParams.messageID p.

Definition inboxChunkUrl (p : ReadParams.t) (next : JSNumber) : string :=
  ReadParams.url p +:+ "/messageexchange/" +:+ ReadParams.mailboxID p
  +:+ "/inbox/" +:+ ReadParams.messageID p +:+ "/" +:+ numberToString next.

(** The [do { ... } while (true)] loop of the chunked branch, entered with
    the response to handle; it yields the assembled [chunkedMessage].  One
    unit of fuel is one iteration. *)
Fixpoint fetchLoop (fuel : nat) (env : Env) (p : ReadParams.t)
    (chunkedMessage : string) (response : Response.t) : Eff string :=
  match fuel with
  | O => outOfFuel
  | S fuel =>
      let chunkedMessage := chunkedMessage +:+ toString (Response.data response) in
      match Response.headers response !! "mex-chunk-range" with
      | None =>
          throw (TypeError "Cannot read properties of undefined (reading 'split')")
      | Some chunkRange =>
          let numbers := map Number (split ":" chunkRange) in
          let currentChunk := numbers !! 0%nat in
          let totalChunks := numbers !! 1%nat in
          if lessThan currentChunk totalChunks then
            let! headers := callGenerateHeaders env (ReadParams.mailboxID p)
                              (ReadParams.mailboxPassword p) (ReadParams.sharedKey p) in
            let config := readConfig p headers in
            let fullUrl := inboxChunkUrl p (plusOne currentChunk) in
            let! response := axiosGet env fullUrl config in
            fetchLoop fuel env p chunkedMessage response
          else ret chunkedMessage
      end
  end.

Definition readMessage (fuel : nat) (env : Env) (p : ReadParams.t)
  : Eff ReadResult :=
  let fullUrl := inboxUrl p in
  let! headers := callGenerateHeaders env (ReadParams.mailboxID p)
                    (ReadParams.mailboxPassword p) (ReadParams.sharedKey p) in
  let config := readConfig p headers in
  let! response := axiosGet env fullUrl config in
  tryCatch
    (if decide (Response.status response = 200) then ret (Whole response)
     else if decide (Response.status response = 206) then
       let! chunkedMessage := fetchLoop fuel env p EmptyString response in
       ret (Assembled 206 chunkedMessage)
     else
       report (ConsoleError
         ("ERROR: Request 'getMessages' completed but responded with incorrect status: "
          +:+ pretty (Response.status response))) ;;;
       processExit 1)
    (fun error => report (ConsoleErrorObject error) ;;; processExit 1).

(** ** [getMessageCount] *)

(** [getMessageCount(url, mailbox_id, mailbox_password, shared_key,
    ssl_enabled, agent)]: one GET on the inbox; the call to axios is made
    before the [try]. *)
Definition getMessageCount (env : Env)
    (url mailbox_id mailbox_password shared_key : string)
    (ssl_enabled : bool) (agent : option Agent) : Eff Response.t :=
  let full_url := url +:+ "/messageexchange/" +:+ mailbox_id +:+ "/inbox" in
  let! headers :=
    callGenerateHeaders env mailbox_id mailbox_password shared_key in
  let config := Config.mk headers (if ssl_enabled then agent else None) None in
  let! response := axiosGet env full_url config in
  tryCatch
    (if decide (Response.status response = 200) then ret response
     else
       report (ConsoleError
         ("ERROR: Request 'getMessages' completed but responded with incorrect status: "
          +:+ pretty (Response.status response))) ;;;
       processExit 1)
    (fun error => report (ConsoleErrorObject error) ;;; processExit 1).

(** ** Scripted servers and sample data *)

(** A transport that answers the n-th request of an operation with the n-th
    reply of a script, whatever the request, and with no response once the
    script is used up. *)
Definition scripted (replies : list Reply)
  : list Request.t -> Request.t -> Reply :=
  fun history _ => default (Reject WithRequest) (replies !! length history).

(** The body of [if (response.data) { result.data = ...; result.status = ... }]
    as a function of the result so far, and its iteration over the responses
    of an upload. *)
Definition keepData (result : TransferResult.t) (response : Response.t)
  : TransferResult.t :=
  if truthy (Response.data response)
  then TransferResult.mk (Some (Response.status response)) (Response.data response)
  else result.

Definition hasData (response : Response.t) : Prop :=
  truthy (Response.data response) = true.

#[global] Instance hasData_dec response : Decision (hasData response).
Proof. unfold hasData. apply _. Defined.

(** A payload of [CHUNK_SIZE + 1] bytes: it needs two chunks. *)
Definition twoChunkPayload : Buffer :=
  replicate (Z.to_nat CHUNK_SIZE) "000"%byte ++ ["001"%byte].

(** A header provider whose header set carries the invocation count. *)
Definition countingHeaders : string -> string -> string -> nat -> gmap string string :=
  fun mailboxID _ _ n =>
    {[ "authorization" := "NHSMESH " +:+ mailboxID +:+ ":" +:+ pretty n ]}.

Definition sampleSend (fileContent : Buffer) : SendParams.t :=
  SendParams.mk "https://mesh.example" "X26ABC1" "password" "key" "X26ABC2"
                None fileContent.

Definition sampleRead : ReadParams.t :=
  ReadParams.mk "https://mesh.example" "X26ABC1" "password" "key" "MSG1"
                false None.

Definition sampleEnv (replies : list Reply) : Env :=
  mkEnv (fun data => data) countingHeaders (scripted replies).

(** [202 Accepted] with the body [{ "message_id": "MSG1" }], and with an
    empty body. *)
Definition acceptedWithId : Response.t :=
  Response.mk 202 "Accepted" (JObj {[ "message_id" := JStr "MSG1" ]}) ∅.

Definition acceptedEmpty : Response.t :=
  Response.mk 202 "Accepted" (JStr EmptyString) ∅.

Definition okEmpty : Response.t :=
  Response.mk 200 "OK" (JStr EmptyString) ∅.

(** A download response with a chunk range header. *)
Definition part (status : Z) (body range : string) : Response.t :=
  Response.mk status EmptyString (JStr body) {[ "mex-chunk-range" := range ]}.

(** A server that answers every request with chunk 1 of 2: the download
    loop asks for chunk 2 for ever. *)
Definition stuckEnv : Env :=
  mkEnv (fun data => data) countingHeaders
        (fun _ _ => Resolve (part 206 EmptyString "1:2")).

(** ** Notions used to state the download properties *)

(** A string of decimal digits. *)
Fixpoint digitsOnly (s : string) : bool :=
  match s with
  | EmptyString => true
  | String c rest => bool_decide (is_Some (digitValue c)) && digitsOnly rest
  end.

(** The bodies of a list of responses, as strings, concatenated in order. *)
Definition assemble (responses : list Response.t) : string :=
  foldr (fun response text => toString (Response.data response) +:+ text)
        EmptyString responses.

(** [currentChunk] and [totalChunks] as the loop reads them off a response
    that has the header. *)
Definition rangeOf (response : Response.t)
  : option (option JSNumber * option JSNumber) :=
  match Response.headers response !! "mex-chunk-range" with
  | None => None
  | Some chunkRange =>
      let numbers := map Number (split ":" chunkRange) in
      Some (numbers !! 0%nat, numbers !! 1%nat)
  end.

(** The loop goes on after this response ([currentChunk < totalChunks])... *)
Definition wantsMore (response : Response.t) : Prop :=
  exists current total,
    rangeOf response = Some (current, total) /\ lessThan current total = true.

(** ... or stops at it. *)
Definition stopsAt (response : Response.t) : Prop :=
  exists current total,
    rangeOf response = Some (current, total) /\ lessThan current total = false.

(** [currentChunk + 1] for the next request. *)
Definition nextIndex (response : Response.t) : JSNumber :=
  match rangeOf response with
  | Some (current, _) => plusOne current
  | None => NaN
  end.

(** The replies the transport gave to the requests [requests], issued in
    this order after [history]. *)
Fixpoint replies (env : Env) (history requests : list Request.t) : list Reply :=
  match requests with
  | [] => []
  | request :: rest =>
      axios env history request :: replies env (history ++ [request]) rest
  end.

Definition isResolve (reply : Reply) : Prop :=
  match reply with
  | Resolve _ => True
  | Reject _ => False
  end.

Definition isAccepted (reply : Reply) : Prop :=
  match reply with
  | Resolve response => Response.status response = 202
  | Reject _ => False
  end.

(** The loop entered with [response] goes on through all of [later] and
    stops at the last of them. *)
Fixpoint chained (response : Response.t) (later : list Response.t) : Prop :=
  match later with
  | [] => stopsAt response
  | next :: later => wantsMore response /\ chained next later
  end.

(** How the outcome of the upload loop relates to the replies it got: it
    goes through accepted replies only, a thrown axios error is the last
    reply, and an exit follows a response with a status other than 202. *)
Definition uploadVerdict {A} (outcome : Outcome A) (got : list Reply) : Prop :=
  match outcome with
  | Returned _ | Thrown (TypeError _) => Forall isAccepted got
  | Thrown (FromAxios e) =>
      exists before, got = before ++ [Reject e] /\ Forall isAccepted before
  | Exited code =>
      code = 1
      /\ exists before response,
           got = before ++ [Resolve response]
           /\ Response.status response <> 202
           /\ Forall isAccepted before
  | OutOfFuel => False
  end.

(** The same for the fetch loop, which does not look at the status and never
    exits by itself. *)
Definition fetchVerdict {A} (outcome : Outcome A) (got : list Reply) : Prop :=
  match outcome with
  | Thrown (FromAxios e) =>
      exists before, got = before ++ [Reject e] /\ Forall isResolve before
  | Exited _ => False
  | Returned _ | Thrown (TypeError _) | OutOfFuel => Forall isResolve got
  end.

(** The header set of a request. *)
Definition headersOf (request : Request.t) : gmap string string :=
  Config.headers (Request.config request).

(** What the [try]/[catch] of [sendChunkedMessage] makes of the outcome of
    its loop: a thrown error becomes the returned value. *)
Definition caught (outcome : Outcome TransferResult.t)
  : Outcome (TransferResult.t + JSError) :=
  match outcome with
  | Returned result => Returned (inl result)
  | Thrown e => Returned (inr e)
  | Exited code => Exited code
  | OutOfFuel => OutOfFuel
  end.

(** How the outcome of [readMessage] relates to the replies it got: a
    rejection of the first request is thrown on; after a first response, the
    operation either sees responses only and does not throw, or exits at the
    first rejection. *)
Definition readVerdict {A} (outcome : Outcome A) (got : list Reply) : Prop :=
  match got with
  | [] => False
  | Reject e :: rest => rest = [] /\ outcome = Thrown (FromAxios e)
  | Resolve _ :: rest =>
      (Forall isResolve rest /\ forall e, outcome <> Thrown e)
      \/ (exists before e,
            rest = before ++ [Reject e] /\ Forall isResolve before
            /\ outcome = Exited 1)
  end.

(** ** Chunk ranges on which the number model is exact

    [Number], [lessThan], [plusOne] and [numberToString] follow JavaScript on
    two kinds of field, and the download properties that depend on what a
    header value is read as are stated for these:
    - the decimal numeral of a natural number up to [Number.MAX_SAFE_INTEGER]
      (2^53 - 1): it is read as that number, and [<], [+ 1] and the template
      literal are exact on it;
    - a field that holds a printable ASCII character which occurs in no
      StringNumericLiteral (these are made of decimal digits, a sign, a dot,
      the exponent letter, the radix prefixes [0x], [0o], [0b], hexadecimal
      digits and the word [Infinity]): it is read as [NaN]. *)

Definition MAX_SAFE_INTEGER : Z := 2 ^ 53 - 1.

Definition numericCharacter (c : ascii) : bool :=
  existsb (Ascii.eqb c)
          (String.list_ascii_of_string "0123456789+-.abcdefABCDEFxXoOIinty").

Definition cannotBeNumeric (c : ascii) : bool :=
  let n := N_of_ascii c in
  ((33 <=? n) && (n <=? 126))%N && negb (numericCharacter c).

(** The field holds a character that no numeric literal holds. *)
Fixpoint notNumeric (s : string) : bool :=
  match s with
  | EmptyString => false
  | String c rest => cannotBeNumeric c || notNumeric rest
  end.

(** The response carries the chunk range "current:total", both written as
    decimal numerals of safe integers. *)
Definition decimalRange (response : Response.t) (current total : nat) : Prop :=
  Response.headers response !! "mex-chunk-range"
  = Some (pretty current +:+ ":" +:+ pretty total)
  /\ Z.of_nat current <= MAX_SAFE_INTEGER
  /\ Z.of_nat total <= MAX_SAFE_INTEGER.

(** A well-formed range that announces more chunks. *)
Definition announcesMore (response : Response.t) : Prop :=
  exists current total : nat,
    decimalRange response current total /\ (current < total)%nat.

(** A header value from which no pair of numbers can be read: it has no ':'
    (so there is no second field), or one of its first two fields is not
    numeric. *)
Definition unreadable (chunkRange : string) : bool :=
  match split ":" chunkRange with
  | current :: total :: _ => notNumeric current || notNumeric total
  | _ => true
  end.

(** A field, a header value, a response and a transport within the two kinds
    above; an empty field (read as 0) is allowed too. *)
Definition plainField (field : string) : Prop :=
  field = EmptyString
  \/ notNumeric field = true
  \/ exists n : nat, field = pretty n /\ Z.of_nat n <= MAX_SAFE_INTEGER.

Definition plainRange (chunkRange : string) : Prop :=
  Forall plainField (take 2 (split ":" chunkRange)).

Definition plainResponse (response : Response.t) : Prop :=
  forall chunkRange,
    Response.headers response !! "mex-chunk-range" = Some chunkRange ->
    plainRange chunkRange.

Definition plainTransport (env : Env) : Prop :=
  forall history request response,
    axios env history request = Resolve response -> plainResponse response.

(** A payload of [2 * CHUNK_SIZE + 1] bytes: it needs three chunks. *)
Definition threeChunkPayload : Buffer :=
  replicate (Z.to_nat CHUNK_SIZE) "000"%byte
  ++ replicate (Z.to_nat CHUNK_SIZE) "002"%byte ++ ["001"%byte].

(** ** The splitter: round trip and chunk bound *)

Section Splitter.

Implicit Types (buffer : Buffer) (chunks : list Buffer) (i : Z).

Lemma slice_inside buffer i :
  0 <= i < Z.of_nat (length buffer) ->
  slice buffer i (i + CHUNK_SIZE)
  = take (Z.to_nat CHUNK_SIZE) (drop (Z.to_nat i) buffer).
Proof.
  intros Hi. unfold slice, clampIndex.
  assert (0 < CHUNK_SIZE) by (unfold CHUNK_SIZE; lia).
  destruct (Z.ltb_spec i 0); [lia|].
  destruct (Z.ltb_spec (i + CHUNK_SIZE) 0); [lia|].
  rewrite (Z.min_l i) by lia.
  destruct (Z.le_gt_cases (i + CHUNK_SIZE) (Z.of_nat (length buffer))).
  - rewrite Z.min_l by lia. f_equal. lia.
  - rewrite Z.min_r by lia.
    rewrite !take_ge; [done| |]; rewrite length_drop; lia.
Qed.

(** The loop appends to [chunks] the pieces of the rest of the buffer. *)
Lemma splitLoop_concat buffer i chunks :
  0 <= i ->
  concat (splitLoop buffer i chunks)
  = concat chunks ++ drop (Z.to_nat i) buffer.
Proof.
  funelim (splitLoop buffer i chunks); intros Hi.
  - rewrite H by (unfold CHUNK_SIZE; lia).
    rewrite concat_app, slice_inside by lia. simpl.
    rewrite app_nil_r, <- app_assoc. f_equal.
    assert (0 < CHUNK_SIZE) by (unfold CHUNK_SIZE; lia).
    replace (Z.to_nat (i + CHUNK_SIZE))
      with (Z.to_nat i + Z.to_nat CHUNK_SIZE)%nat by lia.
    rewrite <- drop_drop. apply take_drop.
  - rewrite drop_ge by lia. by rewrite app_nil_r.
Qed.

Lemma splitLoop_done buffer i chunks :
  Z.of_nat (length buffer) <= i -> splitLoop buffer i chunks = chunks.
Proof.
  intros Hi. simp splitLoop.
  destruct (decide (i < Z.of_nat (length buffer))); [lia|done].
Qed.

Lemma full_snoc chunks c :
  full chunks -> Z.of_nat (length c) = CHUNK_SIZE -> full (chunks ++ [c]).
Proof.
  intros Hf Hc x [Hx | Hx%list_elem_of_singleton]%elem_of_app;
    [by apply Hf | by subst].
Qed.

Lemma full_bounded chunks :
  full chunks -> chunks <> [] -> bounded chunks.
Proof.
  intros Hf Hne. destruct (exists_last Hne) as (front & final & ->).
  exists front, final. split; [done|]. split.
  - intros c Hc. apply Hf, elem_of_app. by left.
  - rewrite (Hf final) by (apply elem_of_app; right; by left).
    unfold CHUNK_SIZE. lia.
Qed.

Lemma splitLoop_bounded buffer i chunks :
  0 <= i -> full chunks ->
  chunks <> [] \/ i < Z.of_nat (length buffer) ->
  bounded (splitLoop buffer i chunks).
Proof.
  funelim (splitLoop buffer i chunks); intros Hi Hfull Hne.
  - assert (0 < CHUNK_SIZE) by (unfold CHUNK_SIZE; lia).
    destruct (Z.le_gt_cases (i + CHUNK_SIZE) (Z.of_nat (length buffer)))
      as [Hfit | Hshort].
    + apply H; [lia| |left; by destruct chunks].
      apply full_snoc; [done|].
      rewrite slice_inside, length_take, length_drop by lia. lia.
    + rewrite splitLoop_done by lia.
      exists chunks, (slice buffer i (i + CHUNK_SIZE)).
      split; [done|]. split; [done|].
      rewrite slice_inside, length_take, length_drop by lia. lia.
  - destruct Hne as [Hne | Hlt]; [by apply full_bounded | lia].
Qed.

End Splitter.

Lemma splitIntoChunks_nil : splitIntoChunks [] = [].
Proof. unfold splitIntoChunks. by rewrite splitLoop_done. Qed.

(** C1 (round trip of the chunk splitter): for every payload buffer,
    concatenating in order the chunks that [splitIntoChunks] returns gives the
    payload back. *)
Theorem splitIntoChunks_round_trip (P : Buffer) :
  concat (splitIntoChunks P) = P.
Proof.
  unfold splitIntoChunks. by rewrite splitLoop_concat.
Qed.

(** C2 (chunk bound): the chunks of a non-empty payload are a front of chunks
    of exactly [CHUNK_SIZE] bytes followed by a last chunk of more than 0 and
    at most [CHUNK_SIZE] bytes. *)
Theorem splitIntoChunks_chunk_bound (P : Buffer) :
  P <> [] ->
  exists front final,
    splitIntoChunks P = front ++ [final]
    /\ (forall c, c ∈ front -> Z.of_nat (length c) = CHUNK_SIZE)
    /\ 0 < Z.of_nat (length final) <= CHUNK_SIZE.
Proof.
  intros HP. apply splitLoop_bounded; [lia| |].
  - intros c Hc. by apply elem_of_nil in Hc.
  - right. destruct P; [done | simpl; lia].
Qed.

Lemma splitIntoChunks_chunk_bound_witness :
  exists front final,
    splitIntoChunks ["a"%byte] = front ++ [final]
    /\ (forall c, c ∈ front -> Z.of_nat (length c) = CHUNK_SIZE)
    /\ 0 < Z.of_nat (length final) <= CHUNK_SIZE.
Proof. apply (splitIntoChunks_chunk_bound ["a"%byte]). discriminate. Defined.

(** C10 (empty payload): [splitIntoChunks] of the empty buffer is the empty
    array, not an array holding one empty chunk; and [sendChunkedMessage] on an
    empty [fileContent] makes no request (the world is left as it was) and
    returns the initial result [{ status: null, data: null }]. *)
Theorem empty_payload_sends_nothing :
  splitIntoChunks [] = []
  /\ forall env url mailboxID mailboxPassword sharedKey mailboxTarget agent w,
       sendChunkedMessage env
         (SendParams.mk url mailboxID mailboxPassword sharedKey mailboxTarget
                        agent [])
         w
       = (Returned (inl (TransferResult.mk None JNull)), w).
Proof.
  split; [apply splitIntoChunks_nil|]. intros.
  unfold sendChunkedMessage, tryCatch, bind. simpl.
  by rewrite splitIntoChunks_nil.
Qed.

(** ** The upload loop *)

Ltac run_step :=
  unfold bind, ret, throw, processExit, report, liftThrow,
    callGenerateHeaders, callAxios; simpl.

(** One iteration of the upload loop, in direct style. *)
Lemma uploadLoop_cons env p total index data rest result messageID w :
  uploadLoop env p total index (data :: rest) result messageID w
  = let headers := generateHeaders env (SendParams.mailboxID p)
                     (SendParams.mailboxPassword p) (SendParams.sharedKey p)
                     (headerCalls w) in
    let request := uploadRequest p headers messageID index total data in
    let w1 := mkWorld (issued w ++ [request]) (S (headerCalls w)) (diagnostics w) in
    match axios env (issued w) request with
    | Reject e => (Thrown (FromAxios e), w1)
    | Resolve response =>
        if decide (Response.status response = 202) then
          if truthy messageID then
            uploadLoop env p total (S index) rest (keepData result response)
                       messageID w1
          else
            match getProperty (Response.data response) "message_id" with
            | inl e => (Thrown e, w1)
            | inr messageID' =>
                uploadLoop env p total (S index) rest (keepData result response)
                           messageID' w1
            end
        else
          (Exited 1,
           mkWorld (issued w1) (headerCalls w1)
             (diagnostics w ++
              [ConsoleError
                 ("ERROR: Request 'sendMessageChunks' completed but responded with incorrect status: "
                  +:+ pretty (Response.status response))]))
    end.
Proof.
  simpl. run_step.
  destruct (axios env _ _) as [response | e]; [|done].
  destruct (decide _); [|done]. unfold keepData.
  destruct (truthy messageID); [done|].
  by destruct (getProperty _ _).
Qed.

Lemma scripted_lookup replies history request reply :
  replies !! length history = Some reply ->
  scripted replies history request = reply.
Proof. unfold scripted. by intros ->. Qed.

Section AcceptedUpload.

Context (gz : Buffer -> Buffer)
        (gh : string -> string -> string -> nat -> gmap string string)
        (responses : list Response.t) (p : SendParams.t).

Let env := mkEnv gz gh (scripted (Resolve <$> responses)).
Let provider := gh (SendParams.mailboxID p) (SendParams.mailboxPassword p)
                   (SendParams.sharedKey p).

Hypothesis accepted : forall r, r ∈ responses -> Response.status r = 202.

(** Once a truthy message identifier is held, the loop sends every remaining
    chunk to the identifier-and-index endpoint and folds [keepData] over the
    responses. *)
Lemma uploadLoop_threaded total messageID :
  truthy messageID = true ->
  forall rest index result w,
    length (issued w) = index ->
    (index + length rest <= length responses)%nat ->
    uploadLoop env p total index rest result messageID w
    = (Returned (foldl keepData result (take (length rest) (drop index responses))),
       mkWorld
         (issued w ++
          imap (fun j data =>
                  uploadRequest p (provider (headerCalls w + j)%nat) messageID
                                (index + j) total data) rest)
         (headerCalls w + length rest)
         (diagnostics w)).
Proof.
  intros Hid. induction rest as [|data rest IH]; intros index result w Hlen Hfit.
  - simpl. unfold ret. rewrite app_nil_r, Nat.add_0_r. by destruct w.
  - simpl in Hfit. rewrite uploadLoop_cons. cbv zeta. simpl axios.
    destruct (lookup_lt_is_Some_2 responses index) as [r Hr]; [lia|].
    rewrite (scripted_lookup _ _ _ (Resolve r))
      by (simpl; rewrite Hlen, list_lookup_fmap, Hr; done).
    rewrite decide_True by (eapply accepted, list_elem_of_lookup_2, Hr).
    rewrite Hid, IH; simpl; [|rewrite length_app; simpl; lia | lia].
    f_equal.
    + rewrite (drop_S _ _ _ Hr). done.
    + f_equal; [|lia]. rewrite <- app_assoc. simpl. f_equal.
      rewrite !Nat.add_0_r. f_equal. apply imap_ext. intros j c _. simpl.
      unfold provider. by rewrite <- !Nat.add_succ_comm.
Qed.

(** The whole operation when the first response carries a truthy
    [message_id]. *)
Lemma sendChunkedMessage_accepted first messageID :
  responses !! 0%nat = Some first ->
  getProperty (Response.data first) "message_id" = inr messageID ->
  truthy messageID = true ->
  let chunks := splitIntoChunks (SendParams.fileContent p) in
  length responses = length chunks ->
  sendChunkedMessage env p initial
  = (Returned (inl (foldl keepData (TransferResult.mk None JNull) responses)),
     mkWorld
       (imap (fun k data =>
                uploadRequest p (provider k)
                  (if k is 0%nat then JUndefined else messageID)
                  k (length chunks) (gz data)) chunks)
       (length chunks) []).
Proof.
  intros Hfirst Hprop Hid chunks Hlen.
  unfold sendChunkedMessage, tryCatch, bind at 1. fold chunks.
  unfold compressData. simpl gzip. rewrite length_map.
  destruct chunks as [|data rest] eqn:Hchunks.
  { destruct responses; [done | discriminate]. }
  rewrite map_cons, uploadLoop_cons. cbv zeta. simpl axios.
  rewrite (scripted_lookup _ _ _ (Resolve first))
    by (simpl; rewrite list_lookup_fmap, Hfirst; done).
  rewrite decide_True
    by (eapply accepted, list_elem_of_lookup_2, Hfirst).
  simpl truthy. cbv iota. rewrite Hprop.
  rewrite (uploadLoop_threaded _ _ Hid); simpl;
    [|done | rewrite length_map, Hlen; simpl; lia].
  unfold ret. f_equal.
  - do 2 f_equal. rewrite length_map.
    destruct responses as [|r0 rs]; [done|]. simpl in Hlen, Hfirst.
    injection Hfirst as ->. simpl. rewrite drop_0, take_ge by lia. done.
  - f_equal; [|by rewrite length_map]. f_equal.
    rewrite imap_fmap. apply imap_ext. intros j c _. done.
Qed.

End AcceptedUpload.

Lemma splitLoop_step buffer i chunks :
  0 <= i < Z.of_nat (length buffer) ->
  splitLoop buffer i chunks
  = splitLoop buffer (i + CHUNK_SIZE)
      (chunks ++ [take (Z.to_nat CHUNK_SIZE) (drop (Z.to_nat i) buffer)]).
Proof.
  intros Hi. rewrite <- slice_inside by done.
  funelim (splitLoop buffer i chunks); [done | lia].
Qed.

Lemma CHUNK_SIZE_pos : 0 < CHUNK_SIZE.
Proof. unfold CHUNK_SIZE. lia. Qed.

Lemma splitIntoChunks_twoChunkPayload :
  splitIntoChunks twoChunkPayload
  = [replicate (Z.to_nat CHUNK_SIZE) "000"%byte; ["001"%byte]].
Proof.
  pose proof CHUNK_SIZE_pos as Hpos.
  assert (Z.of_nat (length twoChunkPayload) = CHUNK_SIZE + 1) as Hlen.
  { unfold twoChunkPayload. rewrite length_app, length_replicate.
    change (length ["001"%byte]) with 1%nat. lia. }
  unfold splitIntoChunks.
  rewrite splitLoop_step by lia.
  rewrite (splitLoop_step _ (0 + CHUNK_SIZE)) by lia.
  rewrite splitLoop_done by lia.
  change (Z.to_nat 0) with 0%nat. rewrite drop_0, Z.add_0_l.
  unfold twoChunkPayload.
  rewrite take_app_length' by (by rewrite length_replicate).
  rewrite drop_app_length' by (by rewrite length_replicate).
  rewrite take_ge; [done|].
  change (length ["001"%byte]) with 1%nat. lia.
Qed.

Lemma splitIntoChunks_threeChunkPayload :
  splitIntoChunks threeChunkPayload
  = [replicate (Z.to_nat CHUNK_SIZE) "000"%byte;
     replicate (Z.to_nat CHUNK_SIZE) "002"%byte; ["001"%byte]].
Proof.
  pose proof CHUNK_SIZE_pos as Hpos.
  assert (Z.of_nat (length threeChunkPayload) = 2 * CHUNK_SIZE + 1) as Hlen.
  { unfold threeChunkPayload. rewrite !length_app, !length_replicate.
    change (length ["001"%byte]) with 1%nat. lia. }
  unfold splitIntoChunks.
  rewrite splitLoop_step by lia.
  rewrite (splitLoop_step _ (0 + CHUNK_SIZE)) by lia.
  rewrite (splitLoop_step _ (0 + CHUNK_SIZE + CHUNK_SIZE)) by lia.
  rewrite splitLoop_done by lia.
  change (Z.to_nat 0) with 0%nat. rewrite drop_0, !Z.add_0_l.
  replace (Z.to_nat (CHUNK_SIZE + CHUNK_SIZE))
    with (Z.to_nat CHUNK_SIZE + Z.to_nat CHUNK_SIZE)%nat by lia.
  rewrite <- drop_drop. unfold threeChunkPayload.
  rewrite take_app_length' by (by rewrite length_replicate).
  rewrite drop_app_length' by (by rewrite length_replicate).
  rewrite take_app_length' by (by rewrite length_replicate).
  rewrite drop_app_length' by (by rewrite length_replicate).
  rewrite take_ge; [reflexivity|].
  change (length ["001"%byte]) with 1%nat. lia.
Qed.

Lemma uploadHeaders_chunk_range p headers index total :
  uploadHeaders p headers index total !! "mex-chunk-range"
  = Some (pretty (index + 1)%nat +:+ ":" +:+ pretty total).
Proof.
  unfold uploadHeaders.
  rewrite lookup_insert_ne by done. by rewrite lookup_insert_eq.
Qed.

(** C3 (upload sequencing), as amended: when the payload splits into N > 1
    chunks, every upload is answered with status 202 and the first response
    carries a non-empty string as [message_id], [sendChunkedMessage] returns
    a result after exactly N POST requests, in chunk order.  The first goes to
    [<url>/messageexchange/<mailboxID>/outbox], which holds no identifier; the
    request at the 0-based position k >= 1 goes to
    [<url>/messageexchange/<mailboxID>/outbox/<identifier>/<k+1>], with the
    identifier as the first response gave it; and every request carries the
    header [mex-chunk-range] = "(k+1):N". *)
Theorem upload_sequencing gz gh (p : SendParams.t) (responses : list Response.t)
    (identifier : string) :
  let chunks := splitIntoChunks (SendParams.fileContent p) in
  let N := length chunks in
  (1 < N)%nat ->
  length responses = N ->
  (forall r, r ∈ responses -> Response.status r = 202) ->
  (exists first, responses !! 0%nat = Some first
                 /\ getProperty (Response.data first) "message_id"
                    = inr (JStr identifier)) ->
  identifier <> EmptyString ->
  exists result w,
    sendChunkedMessage (mkEnv gz gh (scripted (Resolve <$> responses))) p initial
    = (Returned (inl result), w)
    /\ length (issued w) = N
    /\ forall (k : nat) request,
         issued w !! k = Some request ->
         Request.method request = POST
         /\ Request.url request
            = (if k is 0%nat
               then SendParams.url p +:+ "/messageexchange/"
                    +:+ SendParams.mailboxID p +:+ "/outbox"
               else SendParams.url p +:+ "/messageexchange/"
                    +:+ SendParams.mailboxID p +:+ "/outbox/" +:+ identifier
                    +:+ "/" +:+ pretty (k + 1)%nat)
         /\ Request.data request = gz <$> chunks !! k
         /\ Config.headers (Request.config request) !! "mex-chunk-range"
            = Some (pretty (k + 1)%nat +:+ ":" +:+ pretty N).
Proof.
  intros chunks N HN Hlen Hacc (first & Hfirst & Hprop) Hne.
  assert (truthy (JStr identifier) = true) as Hid
    by (simpl; by rewrite bool_decide_eq_false_2).
  rewrite (sendChunkedMessage_accepted gz gh responses p Hacc first
             (JStr identifier)) by done.
  eexists _, _. split; [done|]. simpl issued. fold chunks. fold N.
  split; [by rewrite length_imap|].
  intros k request. rewrite list_lookup_imap.
  destruct (chunks !! k) as [c|]; [|done]. simpl. intros [= <-].
  unfold uploadRequest. simpl. rewrite uploadHeaders_chunk_range.
  repeat split. destruct k; [done|]. by rewrite Hid.
Qed.

Lemma upload_sequencing_witness :
  exists result w,
    sendChunkedMessage
      (mkEnv (fun data => data) countingHeaders
             (scripted (Resolve <$> [acceptedWithId; acceptedEmpty])))
      (sampleSend twoChunkPayload) initial
    = (Returned (inl result), w)
    /\ Request.method <$> issued w = [POST; POST]
    /\ Request.url <$> issued w
       = ["https://mesh.example/messageexchange/X26ABC1/outbox";
          "https://mesh.example/messageexchange/X26ABC1/outbox/MSG1/2"]
    /\ (fun request => headersOf request !! "mex-chunk-range") <$> issued w
       = [Some "1:2"; Some "2:2"].
Proof.
  destruct (upload_sequencing (fun data => data) countingHeaders
              (sampleSend twoChunkPayload) [acceptedWithId; acceptedEmpty] "MSG1")
    as (result & w & Hrun & Hlen & Hrequests).
  - change (SendParams.fileContent _) with twoChunkPayload.
    rewrite splitIntoChunks_twoChunkPayload. cbn [length]. lia.
  - change (SendParams.fileContent _) with twoChunkPayload.
    rewrite splitIntoChunks_twoChunkPayload. reflexivity.
  - intros r Hr. apply list_elem_of_In in Hr.
    destruct Hr as [<- | [<- | []]]; reflexivity.
  - exists acceptedWithId. split; [reflexivity | vm_compute; reflexivity].
  - discriminate.
  - exists result, w. split; [exact Hrun|].
    assert (length (splitIntoChunks
                      (SendParams.fileContent (sampleSend twoChunkPayload)))
            = 2%nat) as HN.
    { change (SendParams.fileContent _) with twoChunkPayload.
      rewrite splitIntoChunks_twoChunkPayload. reflexivity. }
    cbv zeta in Hlen, Hrequests. rewrite HN in Hlen, Hrequests. clear HN.
    destruct (issued w) as [|r0 [|r1 [|r2 rs]]]; try discriminate Hlen.
    destruct (Hrequests 0%nat r0 eq_refl) as (Hm0 & Hu0 & _ & Hh0).
    destruct (Hrequests 1%nat r1 eq_refl) as (Hm1 & Hu1 & _ & Hh1).
    unfold headersOf. cbn [fmap list_fmap].
    rewrite Hm0, Hm1, Hu0, Hu1, Hh0, Hh1.
    repeat split; reflexivity.
Defined.

(** [sendChunkedMessage] around its loop: a result is returned, a thrown
    error goes through the [catch], an exit passes through. *)
Lemma sendChunkedMessage_unfold env p w :
  sendChunkedMessage env p w
  = let chunks := map (gzip env) (splitIntoChunks (SendParams.fileContent p)) in
    match uploadLoop env p (length chunks) 0 chunks
                     (TransferResult.mk None JNull) JUndefined w with
    | (Returned result, w') => (Returned (inl result), w')
    | (Thrown e, w') => sendCatch e w'
    | (Exited code, w') => (Exited code, w')
    | (OutOfFuel, w') => (OutOfFuel, w')
    end.
Proof.
  unfold sendChunkedMessage, tryCatch, bind, compressData, ret. cbv zeta.
  by destruct (uploadLoop _ _ _ _ _ _ _ _) as [[] ?].
Qed.

(** Runs a send of [twoChunkPayload] without building its ten megabytes. *)
Ltac run_two_chunk_send :=
  rewrite sendChunkedMessage_unfold;
  change (SendParams.fileContent (sampleSend twoChunkPayload))
    with twoChunkPayload;
  rewrite splitIntoChunks_twoChunkPayload;
  generalize (replicate (Z.to_nat CHUNK_SIZE) "000"%byte);
  generalize twoChunkPayload;
  intros ? ?; vm_compute.

(** C3, the claim as stated fails: a payload of two chunks whose first upload
    is answered [200 OK] instead of [202] ends the process after one request,
    not two. *)
Lemma upload_stops_before_all_chunks :
  let run := sendChunkedMessage
               (sampleEnv [Resolve okEmpty; Resolve acceptedEmpty])
               (sampleSend twoChunkPayload) initial in
  length (splitIntoChunks twoChunkPayload) = 2%nat
  /\ run.1 = Exited 1
  /\ length (issued run.2) = 1%nat.
Proof.
  cbv zeta. split; [by rewrite splitIntoChunks_twoChunkPayload|].
  run_two_chunk_send. done.
Qed.

(** ** The transfer result of an upload *)

Lemma foldl_keepData_last init responses :
  foldl keepData init responses
  = match last (filter hasData responses) with
    | Some kept =>
        TransferResult.mk (Some (Response.status kept)) (Response.data kept)
    | None => init
    end.
Proof.
  revert init. induction responses as [|r rs IH]; intros init; [done|].
  simpl. rewrite IH, filter_cons. unfold keepData.
  destruct (decide (hasData r)) as [Hr | Hr].
  - rewrite Hr, last_cons. by destruct (last (filter hasData rs)).
  - unfold hasData in Hr. by destruct (truthy (Response.data r)).
Qed.

Lemma message_id_needs_data response messageID :
  getProperty (Response.data response) "message_id" = inr messageID ->
  truthy messageID = true -> hasData response.
Proof.
  unfold hasData. destruct (Response.data response); simpl; try done.
  by intros [= <-].
Qed.

Lemma last_filter_snoc {A} (P : A -> Prop) `{!forall x, Decision (P x)} l x :
  P x -> last (filter P (l ++ [x])) = Some x.
Proof.
  intros Hx. rewrite filter_app, filter_cons, decide_True by done.
  rewrite filter_nil. apply last_snoc.
Qed.

(** C4 (result aggregation), as amended: when every upload is answered with
    status 202 and the first response carries a truthy [message_id], the
    result that [sendChunkedMessage] returns carries the status and the data
    of the last response whose data is truthy; that is the final chunk's
    response whenever the final response has truthy data. *)
Theorem transfer_result_of_accepted_upload gz gh (p : SendParams.t)
    (responses : list Response.t) (messageID : JSValue) :
  length responses = length (splitIntoChunks (SendParams.fileContent p)) ->
  (forall r, r ∈ responses -> Response.status r = 202) ->
  (exists first, responses !! 0%nat = Some first
                 /\ getProperty (Response.data first) "message_id" = inr messageID) ->
  truthy messageID = true ->
  exists kept w,
    last (filter hasData responses) = Some kept
    /\ sendChunkedMessage (mkEnv gz gh (scripted (Resolve <$> responses))) p initial
       = (Returned (inl (TransferResult.mk (Some (Response.status kept))
                                           (Response.data kept))), w)
    /\ (forall final, last responses = Some final -> hasData final ->
                      kept = final).
Proof.
  intros Hlen Hacc (first & Hfirst & Hprop) Hid.
  rewrite (sendChunkedMessage_accepted gz gh responses p Hacc first messageID)
    by done.
  rewrite foldl_keepData_last.
  destruct (last (filter hasData responses)) as [kept|] eqn:Hkept.
  - exists kept. eexists. split; [done|]. split; [done|].
    intros final [front ->]%last_Some Hfinal.
    rewrite last_filter_snoc in Hkept by done. congruence.
  - apply last_None in Hkept.
    assert (first ∈ filter hasData responses) as Hin.
    { apply list_elem_of_filter. split.
      - by eapply message_id_needs_data.
      - by eapply list_elem_of_lookup_2. }
    rewrite Hkept in Hin. by apply elem_of_nil in Hin.
Qed.

Lemma transfer_result_of_accepted_upload_witness :
  let responses := [acceptedWithId; acceptedEmpty] in
  exists kept w,
    last (filter hasData responses) = Some kept
    /\ sendChunkedMessage
         (mkEnv (fun data => data) countingHeaders
                (scripted (Resolve <$> responses)))
         (sampleSend twoChunkPayload) initial
       = (Returned (inl (TransferResult.mk (Some (Response.status kept))
                                           (Response.data kept))), w)
    /\ (forall final, last responses = Some final -> hasData final ->
                      kept = final).
Proof.
  intros responses.
  apply (transfer_result_of_accepted_upload (fun data => data) countingHeaders
           (sampleSend twoChunkPayload) responses (JStr "MSG1")).
  - change (SendParams.fileContent _) with twoChunkPayload.
    rewrite splitIntoChunks_twoChunkPayload. reflexivity.
  - intros r Hr. apply list_elem_of_In in Hr.
    destruct Hr as [<- | [<- | []]]; reflexivity.
  - exists acceptedWithId. split; [reflexivity | vm_compute; reflexivity].
  - reflexivity.
Defined.

(** C4, the claim as stated fails: both uploads of a two-chunk payload are
    answered with 202, the final response has an empty body, and the result
    carries the data of the first response, not of the final one. *)
Lemma transfer_result_keeps_earlier_response :
  let responses := [acceptedWithId; acceptedEmpty] in
  let run := sendChunkedMessage (sampleEnv (Resolve <$> responses))
                                (sampleSend twoChunkPayload) initial in
  (forall r, r ∈ responses -> Response.status r = 202)
  /\ last responses = Some acceptedEmpty
  /\ run.1 = Returned (inl (TransferResult.mk (Some 202)
                                              (Response.data acceptedWithId)))
  /\ Response.data acceptedWithId <> Response.data acceptedEmpty.
Proof.
  cbv zeta. split; [|split; [done|split; [|done]]].
  - intros r Hr. apply list_elem_of_In in Hr.
    destruct Hr as [<- | [<- | []]]; reflexivity.
  - run_two_chunk_send. done.
Qed.

(** ** Decimal numerals: [Number] reads back what a template literal prints *)

Lemma append_cons (x : ascii) (a b : string) :
  String x a +:+ b = String x (a +:+ b).
Proof. reflexivity. Qed.

Lemma append_assoc (a b c : string) : (a +:+ b) +:+ c = a +:+ (b +:+ c).
Proof.
  induction a as [|x a IH]; [done|]. by rewrite !append_cons, IH.
Qed.

Lemma append_empty_r (a : string) : a +:+ EmptyString = a.
Proof.
  induction a as [|x a IH]; [done|]. by rewrite append_cons, IH.
Qed.

Lemma digitValue_pretty_N_char (x : N) :
  (x < 10)%N -> digitValue (pretty_N_char x) = Some x.
Proof.
  intros Hx.
  assert (x = 0 \/ x = 1 \/ x = 2 \/ x = 3 \/ x = 4 \/ x = 5 \/ x = 6
          \/ x = 7 \/ x = 8 \/ x = 9)%N as Hcases by lia.
  repeat (destruct Hcases as [-> | Hcases]; [reflexivity|]).
  by subst.
Qed.

Lemma parseDigits_pretty_N_go (x : N) (s : string) :
  parseDigits 0 (pretty_N_go x s) = parseDigits x s.
Proof.
  revert s. induction (N.lt_wf_0 x) as [x _ IH]. intros s.
  destruct (decide (x = 0)%N) as [-> | Hx]; [done|].
  rewrite pretty_N_go_step by lia.
  rewrite IH by (apply N.div_lt; lia). simpl.
  rewrite digitValue_pretty_N_char by (apply N.mod_lt; lia).
  f_equal. rewrite (N.div_mod x 10) at 3 by done. lia.
Qed.

Lemma digitsOnly_pretty_N_go (x : N) (s : string) :
  digitsOnly s = true -> digitsOnly (pretty_N_go x s) = true.
Proof.
  revert s. induction (N.lt_wf_0 x) as [x _ IH]. intros s Hs.
  destruct (decide (x = 0)%N) as [-> | Hx]; [done|].
  rewrite pretty_N_go_step by lia. apply IH; [apply N.div_lt; lia|].
  simpl. rewrite Hs, digitValue_pretty_N_char by (apply N.mod_lt; lia).
  by rewrite bool_decide_eq_true_2.
Qed.

Lemma pretty_N_go_nonempty (x : N) (s : string) :
  s <> EmptyString -> pretty_N_go x s <> EmptyString.
Proof.
  revert s. induction (N.lt_wf_0 x) as [x _ IH]. intros s Hs.
  destruct (decide (x = 0)%N) as [-> | Hx]; [done|].
  rewrite pretty_N_go_step by lia. apply IH; [apply N.div_lt; lia | done].
Qed.

Lemma digitsOnly_pretty (n : N) : digitsOnly (pretty n) = true.
Proof.
  unfold pretty, pretty_N. case_decide; [done|].
  by apply digitsOnly_pretty_N_go.
Qed.

Lemma pretty_nonempty (n : N) : pretty n <> EmptyString.
Proof.
  unfold pretty, pretty_N. case_decide; [done|].
  rewrite pretty_N_go_step by lia. by apply pretty_N_go_nonempty.
Qed.

Lemma parseDigits_pretty (n : N) : parseDigits 0 (pretty n) = Some n.
Proof.
  unfold pretty, pretty_N. case_decide; [by subst|].
  by rewrite parseDigits_pretty_N_go.
Qed.

Lemma digit_is_plain (c : ascii) :
  is_Some (digitValue c) ->
  isWhiteSpace c = false /\ c <> ":"%char /\ c <> "+"%char /\ c <> "-"%char.
Proof.
  intros [d Hd]. unfold digitValue in Hd.
  destruct c as [[] [] [] [] [] [] [] []]; vm_compute in Hd; try discriminate;
    by repeat split.
Qed.

Lemma trimStart_digits (s : string) : digitsOnly s = true -> trimStart s = s.
Proof.
  destruct s as [|c s]; [done|]. simpl.
  intros [Hc%bool_decide_eq_true _]%andb_true_iff.
  by destruct (digit_is_plain c Hc) as [-> _].
Qed.

Lemma trimEnd_digits (s : string) : digitsOnly s = true -> trimEnd s = s.
Proof.
  induction s as [|c s IH]; [done|]. simpl.
  intros [Hc%bool_decide_eq_true Hs]%andb_true_iff.
  rewrite IH by done. destruct (digit_is_plain c Hc) as [-> _].
  by destruct s.
Qed.

Lemma Number_digits (s : string) (n : N) :
  digitsOnly s = true -> s <> EmptyString -> parseDigits 0 s = Some n ->
  Number s = Num (Z.of_N n).
Proof.
  intros Hs Hne Hn. unfold Number.
  rewrite trimStart_digits, trimEnd_digits by done.
  destruct s as [|c s]; [done|].
  assert (is_Some (digitValue c)) as Hc.
  { simpl in Hs. by apply andb_true_iff in Hs as [?%bool_decide_eq_true _]. }
  destruct (digit_is_plain c Hc) as (_ & _ & Hplus & Hminus).
  assert (parseUnsigned (String c s) = Some n) as Hparse by done.
  destruct c as [[] [] [] [] [] [] [] []]; try done; by rewrite Hparse.
Qed.

Lemma Number_pretty (n : nat) : Number (pretty n) = Num (Z.of_nat n).
Proof.
  unfold pretty, pretty_nat.
  rewrite (Number_digits _ (N.of_nat n));
    [f_equal; lia | apply digitsOnly_pretty | apply pretty_nonempty
    | apply parseDigits_pretty].
Qed.

Lemma pretty_Z_of_nat (n : nat) : pretty (Z.of_nat n) = pretty n.
Proof. by destruct n. Qed.

Lemma split_digits (s : string) : digitsOnly s = true -> split ":" s = [s].
Proof.
  induction s as [|c s IH]; [done|]. simpl.
  intros [Hc%bool_decide_eq_true Hs]%andb_true_iff.
  destruct (digit_is_plain c Hc) as (_ & Hcolon & _).
  rewrite decide_False by done. by rewrite IH.
Qed.

Lemma split_digits_colon (a b : string) :
  digitsOnly a = true -> split ":" (a +:+ ":" +:+ b) = a :: split ":" b.
Proof.
  induction a as [|c a IH]; [done|]. rewrite append_cons. simpl.
  intros [Hc%bool_decide_eq_true Ha]%andb_true_iff.
  destruct (digit_is_plain c Hc) as (_ & Hcolon & _).
  rewrite decide_False by done. by rewrite IH.
Qed.

(** The header value "k:T" is read back as the numbers k and T. *)
Lemma range_of_numerals (k T : nat) :
  map Number (split ":" (pretty k +:+ ":" +:+ pretty T))
  = [Num (Z.of_nat k); Num (Z.of_nat T)].
Proof.
  rewrite split_digits_colon by apply digitsOnly_pretty.
  rewrite split_digits by apply digitsOnly_pretty.
  simpl. by rewrite !Number_pretty.
Qed.

(** ** Fields that are not numeric are read as [NaN] *)

Lemma cannotBeNumeric_plain (c : ascii) :
  cannotBeNumeric c = true ->
  isWhiteSpace c = false /\ digitValue c = None
  /\ c <> "+"%char /\ c <> "-"%char.
Proof.
  destruct c as [[] [] [] [] [] [] [] []]; vm_compute; intros Hc;
    try discriminate Hc; by repeat split.
Qed.

Lemma trimStart_notNumeric (s : string) :
  notNumeric s = true -> notNumeric (trimStart s) = true.
Proof.
  induction s as [|c s IH]; [done|]. simpl. intros Hs.
  destruct (isWhiteSpace c) eqn:Hws; [|done].
  apply IH. destruct (cannotBeNumeric c) eqn:Hc; [|done].
  apply cannotBeNumeric_plain in Hc as [Hc _]. congruence.
Qed.

Lemma trimEnd_notNumeric (s : string) :
  notNumeric s = true -> notNumeric (trimEnd s) = true.
Proof.
  induction s as [|c s IH]; [done|]. simpl. intros Hs.
  destruct (cannotBeNumeric c) eqn:Hc.
  - destruct (cannotBeNumeric_plain c Hc) as [Hws _].
    destruct (trimEnd s); simpl; rewrite ?Hws; simpl; by rewrite Hc.
  - simpl in Hs. specialize (IH Hs).
    destruct (trimEnd s) as [|d t]; [done|]. simpl. by rewrite Hc.
Qed.

Lemma parseDigits_notNumeric (s : string) (acc : N) :
  notNumeric s = true -> parseDigits acc s = None.
Proof.
  revert acc. induction s as [|c s IH]; intros acc; [done|]. simpl. intros Hs.
  destruct (cannotBeNumeric c) eqn:Hc.
  - by destruct (cannotBeNumeric_plain c Hc) as (_ & -> & _).
  - destruct (digitValue c); [by apply IH | done].
Qed.

Lemma parseUnsigned_notNumeric (s : string) :
  notNumeric s = true -> parseUnsigned s = None.
Proof.
  destruct s as [|c s]; [done|]. intros Hs.
  by apply (parseDigits_notNumeric (String c s)).
Qed.

Lemma Number_notNumeric (s : string) : notNumeric s = true -> Number s = NaN.
Proof.
  intros Hs. apply trimStart_notNumeric, trimEnd_notNumeric in Hs. unfold Number.
  destruct (trimEnd (trimStart s)) as [|c digits]; [done|].
  pose proof (parseUnsigned_notNumeric _ Hs) as Hwhole.
  assert (cannotBeNumeric c = false -> parseUnsigned digits = None) as Hrest.
  { intros Hc. apply parseUnsigned_notNumeric. simpl in Hs. by rewrite Hc in Hs. }
  destruct c as [[] [] [] [] [] [] [] []];
    try (by rewrite Hwhole); by rewrite Hrest.
Qed.

(** A header value from which no pair of numbers can be read stops the
    loop: the comparison is false. *)
Lemma unreadable_stops (chunkRange : string) :
  unreadable chunkRange = true ->
  lessThan (map Number (split ":" chunkRange) !! 0%nat)
           (map Number (split ":" chunkRange) !! 1%nat) = false.
Proof.
  unfold unreadable.
  destruct (split ":" chunkRange) as [|current [|total fields]]; [done| |].
  - intros _. simpl. by destruct (Number current).
  - intros [Hc | Ht]%orb_true_iff; simpl.
    + by rewrite (Number_notNumeric current).
    + rewrite (Number_notNumeric total) by done. by destruct (Number current).
Qed.

(** What the model reads off a plain field. *)
Lemma plainField_Number (field : string) :
  plainField field ->
  Number field = NaN
  \/ exists n : nat, Number field = Num (Z.of_nat n).
Proof.
  intros [-> | [Hnot | (n & -> & _)]].
  - right. by exists 0%nat.
  - left. by apply Number_notNumeric.
  - right. exists n. apply Number_pretty.
Qed.

(** ** The download loop *)

(** One iteration of the fetch loop, in direct style. *)
Lemma fetchLoop_S fuel env p chunkedMessage response w :
  fetchLoop (S fuel) env p chunkedMessage response w
  = let chunkedMessage :=
      chunkedMessage +:+ toString (Response.data response) in
    match rangeOf response with
    | None =>
        (Thrown (TypeError "Cannot read properties of undefined (reading 'split')"), w)
    | Some (currentChunk, totalChunks) =>
        if lessThan currentChunk totalChunks then
          let headers := generateHeaders env (ReadParams.mailboxID p)
                           (ReadParams.mailboxPassword p) (ReadParams.sharedKey p)
                           (headerCalls w) in
          let request := Request.mk GET (inboxChunkUrl p (plusOne currentChunk))
                                    None (readConfig p headers) in
          let w1 := mkWorld (issued w ++ [request]) (S (headerCalls w))
                            (diagnostics w) in
          match axios env (issued w) request with
          | Resolve next => fetchLoop fuel env p chunkedMessage next w1
          | Reject e => (Thrown (FromAxios e), w1)
          end
        else (Returned chunkedMessage, w)
    end.
Proof.
  simpl. unfold rangeOf.
  destruct (Response.headers response !! "mex-chunk-range"); [|done].
  cbv zeta. destruct (lessThan _ _); [|done].
  unfold axiosGet. run_step. by destruct (axios env _ _).
Qed.

(** The loop need not end: against [stuckEnv] every amount of fuel is used
    up.  This is why the loop carries fuel. *)
Lemma fetchLoop_can_diverge fuel :
  forall chunkedMessage w,
    (fetchLoop fuel stuckEnv sampleRead chunkedMessage (part 206 EmptyString "1:2") w).1
    = OutOfFuel.
Proof.
  induction fuel as [|fuel IH]; intros chunkedMessage w; [done|].
  assert (rangeOf (part 206 EmptyString "1:2") = Some (Some (Num 1), Some (Num 2)))
    as Hrange by (vm_compute; reflexivity).
  rewrite fetchLoop_S, Hrange. cbv zeta.
  change (lessThan (Some (Num 1)) (Some (Num 2))) with true. cbv iota.
  simpl axios. apply IH.
Qed.

(** [readMessage] in direct style. *)
Lemma readMessage_unfold fuel env p w :
  readMessage fuel env p w
  = let headers := generateHeaders env (ReadParams.mailboxID p)
                     (ReadParams.mailboxPassword p) (ReadParams.sharedKey p)
                     (headerCalls w) in
    let request := Request.mk GET (inboxUrl p) None (readConfig p headers) in
    let w1 := mkWorld (issued w ++ [request]) (S (headerCalls w)) (diagnostics w) in
    match axios env (issued w) request with
    | Reject e => (Thrown (FromAxios e), w1)
    | Resolve response =>
        if decide (Response.status response = 200) then
          (Returned (Whole response), w1)
        else if decide (Response.status response = 206) then
          match fetchLoop fuel env p EmptyString response w1 with
          | (Returned text, w2) => (Returned (Assembled 206 text), w2)
          | (Thrown e, w2) =>
              (Exited 1, mkWorld (issued w2) (headerCalls w2)
                                 (diagnostics w2 ++ [ConsoleErrorObject e]))
          | (Exited code, w2) => (Exited code, w2)
          | (OutOfFuel, w2) => (OutOfFuel, w2)
          end
        else
          (Exited 1,
           mkWorld (issued w1) (headerCalls w1)
             (diagnostics w ++
              [ConsoleError
                 ("ERROR: Request 'getMessages' completed but responded with incorrect status: "
                  +:+ pretty (Response.status response))]))
    end.
Proof.
  unfold readMessage, axiosGet, tryCatch. run_step.
  destruct (axios env _ _) as [response | e]; [|done].
  destruct (decide (Response.status response = 200)); [done|].
  destruct (decide (Response.status response = 206)); [|done].
  by destruct (fetchLoop _ _ _ _ _ _) as [[] ?].
Qed.

Lemma chained_snoc earlier final response later :
  Forall wantsMore earlier -> stopsAt final ->
  earlier ++ [final] = response :: later ->
  chained response later /\ take (length later) (response :: later) = earlier.
Proof.
  revert response later.
  induction earlier as [|r earlier IH]; intros response later Hmore Hstop Heq.
  - injection Heq as <- <-. done.
  - injection Heq as <- <-. apply Forall_cons in Hmore as [Hr Hmore].
    destruct (earlier ++ [final]) as [|next later] eqn:Hlater.
    { by destruct earlier. }
    destruct (IH next later Hmore Hstop eq_refl) as [Hchain Htake].
    split; [done|]. simpl length. rewrite firstn_cons. by f_equal.
Qed.

Section ScriptedDownload.

Context (gz : Buffer -> Buffer)
        (gh : string -> string -> string -> nat -> gmap string string)
        (responses : list Response.t) (p : ReadParams.t).

Let env := mkEnv gz gh (scripted (Resolve <$> responses)).
Let provider := gh (ReadParams.mailboxID p) (ReadParams.mailboxPassword p)
                   (ReadParams.sharedKey p).

(** The request that follows the response [response], with the headers of the
    [n]-th invocation of the provider. *)
Let followUp (n : nat) (response : Response.t) : Request.t :=
  Request.mk GET (inboxChunkUrl p (nextIndex response)) None
             (readConfig p (provider n)).

Lemma fetchLoop_scripted later :
  forall response fuel chunkedMessage w,
    drop (length (issued w)) responses = later ->
    chained response later ->
    (length later < fuel)%nat ->
    fetchLoop fuel env p chunkedMessage response w
    = (Returned (chunkedMessage +:+ assemble (response :: later)),
       mkWorld
         (issued w ++
          imap (fun j => followUp (headerCalls w + j))
               (take (length later) (response :: later)))
         (headerCalls w + length later)
         (diagnostics w)).
Proof.
  induction later as [|next later IH];
    intros response fuel chunkedMessage w Hdrop Hchain Hfuel.
  - destruct fuel as [|fuel]; [simpl in Hfuel; lia|].
    rewrite fetchLoop_S. cbv zeta.
    destruct Hchain as (current & total & -> & ->).
    simpl. rewrite append_empty_r, app_nil_r, Nat.add_0_r. by destruct w.
  - destruct fuel as [|fuel]; [simpl in Hfuel; lia|]. simpl in Hfuel.
    rewrite fetchLoop_S. cbv zeta.
    destruct Hchain as [(current & total & Hrange & Hless) Hchain].
    rewrite Hrange, Hless. simpl axios.
    assert (responses !! length (issued w) = Some next) as Hnext.
    { rewrite <- (Nat.add_0_r (length _)), <- lookup_drop. by rewrite Hdrop. }
    rewrite (scripted_lookup _ _ _ (Resolve next))
      by (by rewrite list_lookup_fmap, Hnext).
    rewrite IH; simpl; [| |done|lia].
    + f_equal.
      * f_equal. by rewrite append_assoc.
      * f_equal; [|lia]. rewrite <- app_assoc. f_equal. simpl.
        rewrite Nat.add_0_r. f_equal.
        { unfold followUp, nextIndex. by rewrite Hrange. }
        apply imap_ext. intros j r _. simpl. f_equal. lia.
    + rewrite length_app. simpl.
      rewrite (drop_S _ _ _ Hnext) in Hdrop. injection Hdrop as Hdrop.
      by rewrite Nat.add_1_r.
Qed.

(** A whole chunked download against a script [earlier ++ [final]]: the loop
    goes on after each of [earlier] and stops at [final]. *)
Lemma readMessage_scripted earlier final first fuel :
  responses = earlier ++ [final] ->
  responses !! 0%nat = Some first ->
  Response.status first = 206 ->
  Forall wantsMore earlier ->
  stopsAt final ->
  (length earlier < fuel)%nat ->
  readMessage fuel env p initial
  = (Returned (Assembled 206 (assemble responses)),
     mkWorld
       (Request.mk GET (inboxUrl p) None (readConfig p (provider 0))
        :: imap (fun j => followUp (S j)) earlier)
       (length responses) []).
Proof.
  intros Hresp Hfirst H206 Hmore Hstop Hfuel.
  rewrite readMessage_unfold. cbv zeta. simpl axios.
  rewrite (scripted_lookup _ _ _ (Resolve first))
    by (simpl; by rewrite list_lookup_fmap, Hfirst).
  rewrite decide_False by lia. rewrite decide_True by done.
  pose proof (drop_S _ _ _ Hfirst) as Hrs. rewrite drop_0 in Hrs.
  set (later := drop 1 responses) in *.
  destruct (chained_snoc earlier final first later Hmore Hstop) as [Hchain Htake];
    [congruence|].
  assert (length responses = S (length later)) as Hlen by (by rewrite Hrs).
  assert (length later = length earlier) as Hlen'.
  { rewrite Hresp, length_app in Hlen. simpl in Hlen. lia. }
  rewrite (fetchLoop_scripted later); [|done|done|lia].
  rewrite Htake, <- Hrs, Hlen. simpl. done.
Qed.

End ScriptedDownload.

Lemma rangeOf_numerals response (k T : nat) :
  Response.headers response !! "mex-chunk-range"
  = Some (pretty k +:+ ":" +:+ pretty T) ->
  rangeOf response = Some (Some (Num (Z.of_nat k)), Some (Num (Z.of_nat T))).
Proof.
  intros Hrange. unfold rangeOf. rewrite Hrange. cbv zeta.
  by rewrite range_of_numerals.
Qed.

Lemma announcesMore_wantsMore response :
  announcesMore response -> wantsMore response.
Proof.
  intros (current & total & (Hrange & _) & Hlt).
  eexists _, _. split; [by apply rangeOf_numerals|].
  simpl. apply bool_decide_eq_true. lia.
Qed.

(** String bodies are appended as they are. *)
Lemma assemble_strings (responses : list Response.t) (bodies : list string) :
  Response.data <$> responses = JStr <$> bodies ->
  assemble responses = foldr String.append EmptyString bodies.
Proof.
  revert bodies. induction responses as [|r rs IH]; intros [|b bs] Heq;
    try done.
  rewrite !fmap_cons in Heq. injection Heq as Hr Hrs.
  unfold assemble in *. simpl. by rewrite Hr, (IH bs Hrs).
Qed.



(** The scenario of the specification: the bodies "a", "b", "c" are
    assembled into "abc". *)
Example three_parts_make_abc :
  (readMessage 3
     (sampleEnv (Resolve <$> [part 206 "a" "1:3"; part 206 "b" "2:3";
                               part 200 "c" "3:3"]))
     sampleRead initial).1
  = Returned (Assembled 206 "abc").
Proof. vm_compute. reflexivity. Qed.

(** C7 (malformed chunk range), as amended: [readMessage] does not validate
    the header value and raises no error for a malformed one.  When the value
    holds no ':' (there is no second field, so [totalChunks] is [undefined]) or
    one of its first two fields holds a character that no numeric literal holds
    (the field is read as [NaN]), the comparison [currentChunk < totalChunks]
    is false: the loop stops at that response, and [readMessage] returns
    [{ status: 206, data }] with the bodies received so far, that of the
    malformed response included.  The responses before it are well-formed:
    they carry ranges "c:t" of safe integers with c < t. *)
Theorem unread_range_ends_download gz gh (p : ReadParams.t)
    (earlier : list Response.t) (first final : Response.t)
    (bodies : list string) (chunkRange : string) (fuel : nat) :
  (earlier ++ [final]) !! 0%nat = Some first ->
  Response.status first = 206 ->
  Forall announcesMore earlier ->
  Response.headers final !! "mex-chunk-range" = Some chunkRange ->
  unreadable chunkRange = true ->
  Response.data <$> earlier ++ [final] = JStr <$> bodies ->
  (length earlier < fuel)%nat ->
  exists w,
    readMessage fuel
      (mkEnv gz gh (scripted (Resolve <$> earlier ++ [final]))) p initial
    = (Returned (Assembled 206 (foldr String.append EmptyString bodies)), w)
    /\ length (issued w) = S (length earlier).
Proof.
  intros Hfirst H206 Hmore Hrange Hunreadable Hbodies Hfuel.
  rewrite (readMessage_scripted gz gh _ p earlier final first); try done.
  - rewrite (assemble_strings _ bodies Hbodies).
    eexists. split; [done|]. simpl. by rewrite length_imap.
  - eapply Forall_impl; [exact Hmore|]. apply announcesMore_wantsMore.
  - eexists _, _. split; [|by apply unreadable_stops].
    unfold rangeOf. by rewrite Hrange.
Qed.

Lemma unread_range_ends_download_witness :
  exists w,
    readMessage 2
      (mkEnv (fun data => data) countingHeaders
             (scripted (Resolve <$> [part 206 "a" "1:3"] ++ [part 206 "b" "2:many"])))
      sampleRead initial
    = (Returned (Assembled 206 "ab"), w)
    /\ length (issued w) = 2%nat.
Proof.
  apply (unread_range_ends_download (fun data => data) countingHeaders
           sampleRead [part 206 "a" "1:3"] (part 206 "a" "1:3")
           (part 206 "b" "2:many") ["a"; "b"] "2:many" 2).
  - reflexivity.
  - reflexivity.
  - apply Forall_cons. split; [|by apply Forall_nil].
    exists 1%nat, 3%nat. repeat split; [vm_compute; discriminate.. | lia].
  - vm_compute. reflexivity.
  - vm_compute. reflexivity.
  - reflexivity.
  - simpl. lia.
Defined.

(** C7, the claim as stated fails: the second response of a three-chunk
    message carries the header value "abc"; no error is raised, and the part
    received so far is returned as if complete.  With the value ":3" the empty
    field is read as 0, and the client goes on to ask for chunk 1. *)
Lemma malformed_range_raises_no_error :
  let garbled := readMessage 5
                   (sampleEnv (Resolve <$> [part 206 "a" "1:3"; part 206 "b" "abc"]))
                   sampleRead initial in
  let zeroed := readMessage 5
                  (sampleEnv (Resolve <$> [part 206 "a" ":3"; part 206 "b" "3:3"]))
                  sampleRead initial in
  garbled.1 = Returned (Assembled 206 "ab")
  /\ length (issued garbled.2) = 2%nat
  /\ zeroed.1 = Returned (Assembled 206 "ab")
  /\ Request.url <$> issued zeroed.2
     = ["https://mesh.example/messageexchange/X26ABC1/inbox/MSG1";
        "https://mesh.example/messageexchange/X26ABC1/inbox/MSG1/1"].
Proof. vm_compute. done. Qed.

(** The status guard where the code has it: in the upload loop, at every
    chunk, and in the download, at the initial response. *)
Lemma upload_status_guard env p total index data rest result messageID w response :
  let request :=
    uploadRequest p
      (generateHeaders env (SendParams.mailboxID p)
         (SendParams.mailboxPassword p) (SendParams.sharedKey p) (headerCalls w))
      messageID index total data in
  let run := uploadLoop env p total index (data :: rest) result messageID w in
  axios env (issued w) request = Resolve response ->
  Response.status response <> 202 ->
  run.1 = Exited 1 /\ issued run.2 = issued w ++ [request].
Proof.
  intros request run Hreply Hstatus. subst run.
  rewrite uploadLoop_cons. cbv zeta. fold request. rewrite Hreply.
  by rewrite decide_False.
Qed.

Lemma download_initial_status_guard fuel env p response :
  let request :=
    Request.mk GET (inboxUrl p) None
      (readConfig p (generateHeaders env (ReadParams.mailboxID p)
                       (ReadParams.mailboxPassword p) (ReadParams.sharedKey p) 0)) in
  let run := readMessage fuel env p initial in
  axios env [] request = Resolve response ->
  Response.status response <> 200 ->
  Response.status response <> 206 ->
  run.1 = Exited 1 /\ issued run.2 = [request].
Proof.
  intros request run Hreply H200 H206. subst run.
  rewrite readMessage_unfold. cbv zeta. simpl issued. simpl headerCalls.
  fold request. rewrite Hreply. by rewrite !decide_False.
Qed.

(** C5, the code at the failing input: the second response of a two-chunk
    download has status 204, which is neither 200 nor 206; the loop does not
    look at it, and the download returns normally instead of aborting. *)
Lemma later_chunk_status_is_not_checked :
  let run := readMessage 5
               (sampleEnv (Resolve <$> [part 206 "a" "1:2"; part 204 "b" "2:2"]))
               sampleRead initial in
  run.1 = Returned (Assembled 206 "ab")
  /\ length (issued run.2) = 2%nat
  /\ diagnostics run.2 = [].
Proof. vm_compute. done. Qed.

(** ** Traces against an arbitrary transport *)

Lemma replies_app env history requests more :
  replies env history (requests ++ more)
  = replies env history requests ++ replies env (history ++ requests) more.
Proof.
  revert history. induction requests as [|request requests IH]; intros history.
  - simpl. by rewrite app_nil_r.
  - simpl. by rewrite IH, <- app_assoc.
Qed.

Lemma uploadVerdict_cons {A} (outcome : Outcome A) reply got :
  isAccepted reply -> uploadVerdict outcome got ->
  uploadVerdict outcome (reply :: got).
Proof.
  intros Hreply. destruct outcome as [a | [e | m] | code |]; simpl; try done.
  - intros Hgot. by constructor.
  - intros (before & -> & Hbefore). exists (reply :: before).
    split; [done | by constructor].
  - intros Hgot. by constructor.
  - intros (-> & before & response & -> & Hstatus & Hbefore).
    split; [done|]. exists (reply :: before), response.
    repeat split; [done | by constructor].
Qed.

Lemma getProperty_throws value key e :
  getProperty value key = inl e -> exists message, e = TypeError message.
Proof. destruct value; simpl; intros [= <-]; by eexists. Qed.

(** The upload loop from any state against any transport: what it adds to
    the trace, how often it asks for headers, which headers each request
    carries, and how its outcome follows from the replies. *)
Lemma uploadLoop_trace env p total chunks :
  forall index result messageID w,
    let run := uploadLoop env p total index chunks result messageID w in
    exists requests,
      issued run.2 = issued w ++ requests
      /\ headerCalls run.2 = (headerCalls w + length requests)%nat
      /\ (forall (j : nat) request,
            requests !! j = Some request ->
            headersOf request
            = uploadHeaders p
                (generateHeaders env (SendParams.mailboxID p)
                   (SendParams.mailboxPassword p) (SendParams.sharedKey p)
                   (headerCalls w + j)%nat)
                (index + j) total)
      /\ uploadVerdict run.1 (replies env (issued w) requests).
Proof.
  induction chunks as [|data rest IH]; intros index result messageID w run.
  { exists []. subst run. simpl. unfold ret. simpl.
    rewrite app_nil_r, Nat.add_0_r. repeat split; [|done]. by intros j r. }
  subst run. rewrite uploadLoop_cons. cbv zeta.
  set (request := uploadRequest p _ messageID index total data).
  set (w1 := mkWorld (issued w ++ [request]) _ _).
  assert (forall (j : nat) r, [request] !! j = Some r ->
            headersOf r
            = uploadHeaders p
                (generateHeaders env (SendParams.mailboxID p)
                   (SendParams.mailboxPassword p) (SendParams.sharedKey p)
                   (headerCalls w + j)%nat) (index + j) total) as Hone.
  { intros [|j] r; [|done]. intros [= <-]. by rewrite !Nat.add_0_r. }
  assert (forall next result' messageID',
            axios env (issued w) request = Resolve next ->
            Response.status next = 202 ->
            let run := uploadLoop env p total (S index) rest result' messageID' w1 in
            exists requests,
              issued run.2 = issued w ++ requests
              /\ headerCalls run.2 = (headerCalls w + length requests)%nat
              /\ (forall (j : nat) r,
                    requests !! j = Some r ->
                    headersOf r
                    = uploadHeaders p
                        (generateHeaders env (SendParams.mailboxID p)
                           (SendParams.mailboxPassword p) (SendParams.sharedKey p)
                           (headerCalls w + j)%nat) (index + j) total)
              /\ uploadVerdict run.1 (replies env (issued w) requests)) as Hgo.
  { intros next result' messageID' Hreply Hstatus run.
    destruct (IH (S index) result' messageID' w1)
      as (requests & Hissued & Hcalls & Hheaders & Hverdict).
    exists (request :: requests). fold run in Hissued, Hcalls, Hverdict.
    split; [by rewrite Hissued; simpl; rewrite <- app_assoc|].
    split; [rewrite Hcalls; simpl; lia|]. split.
    - intros [|j] r Hr.
      + by apply (Hone 0%nat).
      + rewrite (Hheaders j r Hr). simpl. by rewrite <- !Nat.add_succ_comm.
    - simpl. rewrite Hreply. by apply uploadVerdict_cons. }
  destruct (axios env (issued w) request) as [next | e] eqn:Hreply.
  - destruct (decide (Response.status next = 202)) as [Hstatus | Hstatus].
    + destruct (truthy messageID); [by eapply Hgo|].
      destruct (getProperty _ _) as [e | messageID'] eqn:Hprop; [|by eapply Hgo].
      destruct (getProperty_throws _ _ _ Hprop) as [message ->].
      exists [request]. simpl. rewrite Hreply.
      repeat split; [lia | done | by apply Forall_singleton].
    + exists [request]. simpl. rewrite Hreply.
      repeat split; [lia | done |]. by exists [], next.
  - exists [request]. simpl. rewrite Hreply.
    repeat split; [lia | done |]. by exists [].
Qed.

Lemma sendCatch_returns e w :
  exists log,
    sendCatch e w
    = (Returned (inr e), mkWorld (issued w) (headerCalls w) (diagnostics w ++ [log])).
Proof. destruct e as [[response | | message] | message]; by eexists. Qed.

(** The whole send against any transport. *)
Lemma sendChunkedMessage_trace env p :
  let run := sendChunkedMessage env p initial in
  headerCalls run.2 = length (issued run.2)
  /\ (forall (k : nat) request,
        issued run.2 !! k = Some request ->
        headersOf request
        = uploadHeaders p
            (generateHeaders env (SendParams.mailboxID p)
               (SendParams.mailboxPassword p) (SendParams.sharedKey p) k)
            k (length (splitIntoChunks (SendParams.fileContent p))))
  /\ exists outcome,
       run.1 = caught outcome
       /\ uploadVerdict outcome (replies env [] (issued run.2)).
Proof.
  intros run. subst run. rewrite sendChunkedMessage_unfold. cbv zeta.
  rewrite length_map.
  destruct (uploadLoop_trace env p
              (length (splitIntoChunks (SendParams.fileContent p)))
              (map (gzip env) (splitIntoChunks (SendParams.fileContent p)))
              0%nat (TransferResult.mk None JNull) JUndefined initial)
    as (requests & Hissued & Hcalls & Hheaders & Hverdict).
  cbv zeta in Hissued, Hcalls, Hverdict. simpl in Hissued, Hcalls, Hverdict.
  destruct (uploadLoop _ _ _ _ _ _ _ _) as [outcome w'].
  simpl in Hissued, Hcalls, Hverdict.
  assert (exists w'',
            match outcome with
            | Returned result => (Returned (inl result), w')
            | Thrown e => sendCatch e w'
            | Exited code => (Exited code, w')
            | OutOfFuel => (OutOfFuel, w')
            end = (caught outcome, w'')
            /\ issued w'' = issued w' /\ headerCalls w'' = headerCalls w')
    as (w'' & -> & Hi & Hc).
  { destruct outcome as [result | e | code |]; try by exists w'.
    destruct (sendCatch_returns e w') as [log ->]. by eexists. }
  simpl. rewrite Hi, Hc, Hissued, Hcalls.
  split; [done|]. split; [|by exists outcome].
  intros k request Hk. by rewrite (Hheaders k request Hk).
Qed.

Lemma fetchVerdict_cons {A} (outcome : Outcome A) reply got :
  isResolve reply -> fetchVerdict outcome got ->
  fetchVerdict outcome (reply :: got).
Proof.
  intros Hreply. destruct outcome as [a | [e | m] | code |]; simpl; try done.
  - intros Hgot. by constructor.
  - intros (before & -> & Hbefore). exists (reply :: before).
    split; [done | by constructor].
  - intros Hgot. by constructor.
  - intros Hgot. by constructor.
Qed.

(** The fetch loop from any state against any transport. *)
Lemma fetchLoop_trace env p fuel :
  forall chunkedMessage response w,
    let run := fetchLoop fuel env p chunkedMessage response w in
    exists requests,
      issued run.2 = issued w ++ requests
      /\ headerCalls run.2 = (headerCalls w + length requests)%nat
      /\ (forall (j : nat) request,
            requests !! j = Some request ->
            headersOf request
            = generateHeaders env (ReadParams.mailboxID p)
                (ReadParams.mailboxPassword p) (ReadParams.sharedKey p)
                (headerCalls w + j)%nat)
      /\ fetchVerdict run.1 (replies env (issued w) requests).
Proof.
  induction fuel as [|fuel IH]; intros chunkedMessage response w run; subst run.
  { exists []. simpl. rewrite app_nil_r, Nat.add_0_r.
    repeat split; [|done]. by intros j r. }
  rewrite fetchLoop_S. cbv zeta.
  destruct (rangeOf response) as [[currentChunk totalChunks]|].
  2: { exists []. simpl. rewrite app_nil_r, Nat.add_0_r.
       repeat split; [|done]. by intros j r. }
  destruct (lessThan currentChunk totalChunks).
  2: { exists []. simpl. rewrite app_nil_r, Nat.add_0_r.
       repeat split; [|done]. by intros j r. }
  set (request := Request.mk GET _ None _).
  set (w1 := mkWorld (issued w ++ [request]) _ _).
  destruct (axios env (issued w) request) as [next | e] eqn:Hreply.
  - destruct (IH (chunkedMessage +:+ toString (Response.data response)) next w1)
      as (requests & Hissued & Hcalls & Hheaders & Hverdict).
    cbv zeta in Hissued, Hcalls, Hverdict.
    exists (request :: requests).
    split; [by rewrite Hissued; simpl; rewrite <- app_assoc|].
    split; [rewrite Hcalls; simpl; lia|]. split.
    + intros [|j] r Hr.
      * injection Hr as <-. by rewrite Nat.add_0_r.
      * rewrite (Hheaders j r Hr). simpl. by rewrite <- Nat.add_succ_comm.
    + simpl. rewrite Hreply. by apply fetchVerdict_cons.
  - exists [request]. simpl. rewrite Hreply. repeat split; [lia | |by exists []].
    intros [|j] r; [|done]. intros [= <-]. by rewrite Nat.add_0_r.
Qed.

(** The whole download against any transport. *)
Lemma readMessage_trace env p fuel :
  let run := readMessage fuel env p initial in
  headerCalls run.2 = length (issued run.2)
  /\ (forall (k : nat) request,
        issued run.2 !! k = Some request ->
        headersOf request
        = generateHeaders env (ReadParams.mailboxID p)
            (ReadParams.mailboxPassword p) (ReadParams.sharedKey p) k)
  /\ readVerdict run.1 (replies env [] (issued run.2)).
Proof.
  intros run. subst run. rewrite readMessage_unfold. cbv zeta.
  change (issued initial) with (@nil Request.t).
  change (headerCalls initial) with 0%nat.
  set (request := Request.mk GET _ None _).
  rewrite app_nil_l.
  set (w1 := mkWorld [request] 1 _).
  assert (forall (k : nat) r, [request] !! k = Some r ->
            headersOf r
            = generateHeaders env (ReadParams.mailboxID p)
                (ReadParams.mailboxPassword p) (ReadParams.sharedKey p) k)
    as Hone.
  { intros [|k] r; [|done]. by intros [= <-]. }
  destruct (axios env [] request) as [response | e] eqn:Hreply.
  2: { simpl. by rewrite Hreply. }
  destruct (decide (Response.status response = 200)) as [H200 | H200].
  { simpl. rewrite Hreply. repeat split; [done|]. left. by split. }
  destruct (decide (Response.status response = 206)) as [H206 | H206].
  2: { simpl. rewrite Hreply. repeat split; [done|]. left. by split. }
  destruct (fetchLoop_trace env p fuel EmptyString response w1)
    as (requests & Hissued & Hcalls & Hheaders & Hverdict).
  cbv zeta in Hissued, Hcalls, Hverdict.
  destruct (fetchLoop fuel env p EmptyString response w1) as [outcome w2].
  simpl in Hissued, Hcalls, Hverdict.
  assert (forall (k : nat) r, (request :: requests) !! k = Some r ->
            headersOf r
            = generateHeaders env (ReadParams.mailboxID p)
                (ReadParams.mailboxPassword p) (ReadParams.sharedKey p) k)
    as Hall.
  { intros [|k] r Hr; [by apply (Hone 0%nat)|]. by apply (Hheaders k r). }
  destruct outcome as [text | [e | message] | code |]; simpl;
    rewrite Hissued, Hcalls; simpl; rewrite Hreply;
    (split; [done|]); (split; [done|]); simpl in Hverdict.
  - left. by split.
  - right. destruct Hverdict as (before & -> & Hbefore). by exists before, e.
  - left. split; [done|]. by intros e.
  - done.
  - left. by split.
Qed.

(** ** Transport failures *)

Lemma accepted_no_reject got e : Forall isAccepted got -> Reject e ∉ got.
Proof.
  intros Hall Hin. by apply (proj1 (Forall_forall _ _) Hall) in Hin.
Qed.

Lemma resolved_no_reject got e : Forall isResolve got -> Reject e ∉ got.
Proof.
  intros Hall Hin. by apply (proj1 (Forall_forall _ _) Hall) in Hin.
Qed.

Lemma reject_is_last (P : Reply -> Prop) before e e' :
  (forall got, Forall P got -> Reject e ∉ got) ->
  Forall P before -> Reject e ∈ before ++ [Reject e'] -> e = e'.
Proof.
  intros Hno Hbefore [Hin | Hin%list_elem_of_singleton]%elem_of_app.
  - by destruct (Hno before Hbefore).
  - by injection Hin.
Qed.

(** C8 (transport failures), as amended.  In a send, a request that the
    transport rejects (no response, an error status that axios refuses, or a
    request that could not be set up) is the last request, and the axios error
    itself is returned to the caller as a value; the process exits only after a
    response whose status is not 202.  In a download a rejection is never
    returned as a value: the rejection of the initial request is thrown on to
    the caller, and the rejection of a later chunk request ends the process
    with exit code 1. *)
Theorem transport_failure_outcomes env (e : AxiosError) :
  (forall p,
     let run := sendChunkedMessage env p initial in
     let got := replies env [] (issued run.2) in
     Reject e ∈ got ->
     last got = Some (Reject e) /\ run.1 = Returned (inr (FromAxios e)))
  /\ (forall p code,
        let run := sendChunkedMessage env p initial in
        run.1 = Exited code ->
        exists response,
          last (replies env [] (issued run.2)) = Some (Resolve response)
          /\ Response.status response <> 202)
  /\ (forall fuel p,
        let run := readMessage fuel env p initial in
        let got := replies env [] (issued run.2) in
        Reject e ∈ got ->
        last got = Some (Reject e)
        /\ run.1 = if decide (length got = 1%nat) then Thrown (FromAxios e)
                   else Exited 1).
Proof.
  split; [|split].
  - intros p run got Hin. subst got.
    destruct (sendChunkedMessage_trace env p)
      as (_ & _ & outcome & Hrun & Hverdict).
    fold run in Hrun, Hverdict. rewrite Hrun.
    destruct outcome as [result | [e' | message] | code |]; simpl in Hverdict.
    + by destruct (accepted_no_reject _ e Hverdict).
    + destruct Hverdict as (before & Hgot & Hbefore). rewrite Hgot in Hin |- *.
      rewrite (reject_is_last isAccepted before e e'); try done.
      * by rewrite last_snoc.
      * intros. by apply accepted_no_reject.
    + by destruct (accepted_no_reject _ e Hverdict).
    + destruct Hverdict as (_ & before & response & Hgot & _ & Hbefore).
      rewrite Hgot in Hin.
      apply elem_of_app in Hin as [Hin | Hin%list_elem_of_singleton];
        [by destruct (accepted_no_reject _ e Hbefore) | done].
    + done.
  - intros p code run Hexit.
    destruct (sendChunkedMessage_trace env p)
      as (_ & _ & outcome & Hrun & Hverdict).
    fold run in Hrun, Hverdict. rewrite Hrun in Hexit.
    destruct outcome as [result | e' | code' |]; try done.
    destruct Hverdict as (_ & before & response & Hgot & Hstatus & _).
    exists response. rewrite Hgot. by rewrite last_snoc.
  - intros fuel p run got Hin. subst got.
    destruct (readMessage_trace env p fuel) as (_ & _ & Hverdict).
    fold run in Hverdict.
    destruct (replies env [] (issued run.2)) as [|[response | e'] rest];
      simpl in Hverdict; [done| |].
    + apply elem_of_cons in Hin as [Hin | Hin]; [done|].
      destruct Hverdict as [[Hrest _] | (before & e' & -> & Hbefore & ->)].
      { by destruct (resolved_no_reject _ e Hrest). }
      rewrite (reject_is_last isResolve before e e'); try done.
      * split; [by rewrite last_cons, last_snoc|].
        rewrite decide_False; [done|]. simpl. rewrite length_app. simpl. lia.
      * intros. by apply resolved_no_reject.
    + destruct Hverdict as [-> ->].
      apply list_elem_of_singleton in Hin. by injection Hin as ->.
Qed.

Lemma transport_failure_outcomes_witness :
  (let run := sendChunkedMessage (sampleEnv [Reject WithRequest])
                                 (sampleSend ["001"%byte]) initial in
   let got := replies (sampleEnv [Reject WithRequest]) [] (issued run.2) in
   last got = Some (Reject WithRequest)
   /\ run.1 = Returned (inr (FromAxios WithRequest)))
  /\ (let run := readMessage 2
                   (sampleEnv [Resolve (part 206 "a" "1:2"); Reject WithRequest])
                   sampleRead initial in
      let got := replies
                   (sampleEnv [Resolve (part 206 "a" "1:2"); Reject WithRequest])
                   [] (issued run.2) in
      last got = Some (Reject WithRequest)
      /\ run.1 = if decide (length got = 1%nat)
                 then Thrown (FromAxios WithRequest) else Exited 1).
Proof.
  split.
  - apply (proj1 (transport_failure_outcomes (sampleEnv [Reject WithRequest])
                    WithRequest) (sampleSend ["001"%byte])).
    vm_compute. left.
  - apply (proj2 (proj2 (transport_failure_outcomes
                           (sampleEnv [Resolve (part 206 "a" "1:2");
                                       Reject WithRequest])
                           WithRequest)) 2%nat sampleRead).
    vm_compute. right. left.
Defined.

(** C8, the claim as stated fails for downloads: a request that gets no
    response is not returned as an error value.  On the initial request the
    error is thrown to the caller; on a later chunk request the process
    exits. *)
Lemma download_failure_is_not_returned :
  let atFirst := readMessage 5 (sampleEnv [Reject WithRequest])
                             sampleRead initial in
  let atLater := readMessage 5
                   (sampleEnv [Resolve (part 206 "a" "1:2"); Reject WithRequest])
                   sampleRead initial in
  atFirst.1 = Thrown (FromAxios WithRequest)
  /\ atLater.1 = Exited 1
  /\ length (issued atLater.2) = 2%nat.
Proof. vm_compute. done. Qed.

(** ** Header freshness *)





(** Two requests were made in this download, with two different header
    sets. *)
Example two_requests_two_header_sets :
  headersOf <$>
    issued (readMessage 2
              (sampleEnv (Resolve <$> [part 206 "a" "1:2"; part 206 "b" "2:2"]))
              sampleRead initial).2
  = [countingHeaders "X26ABC1" "password" "key" 0;
     countingHeaders "X26ABC1" "password" "key" 1].
Proof. vm_compute. reflexivity. Qed.

(** * Further properties of the code *)

(** ** The splitter in closed form *)

Lemma remaining_step (len i : Z) :
  i < len ->
  Z.to_nat ((len - i + CHUNK_SIZE - 1) / CHUNK_SIZE)
  = S (Z.to_nat ((len - (i + CHUNK_SIZE) + CHUNK_SIZE - 1) / CHUNK_SIZE)).
Proof.
  intros Hi. pose proof CHUNK_SIZE_pos as Hpos.
  replace (len - i + CHUNK_SIZE - 1)
    with ((len - (i + CHUNK_SIZE) + CHUNK_SIZE - 1) + 1 * CHUNK_SIZE) by lia.
  rewrite Z.div_add by lia.
  assert (0 <= (len - (i + CHUNK_SIZE) + CHUNK_SIZE - 1) / CHUNK_SIZE)
    by (apply Z.div_pos; lia).
  lia.
Qed.

Lemma remaining_done (len i : Z) :
  len <= i -> Z.to_nat ((len - i + CHUNK_SIZE - 1) / CHUNK_SIZE) = 0%nat.
Proof.
  intros Hi. pose proof CHUNK_SIZE_pos as Hpos.
  assert ((len - i + CHUNK_SIZE - 1) / CHUNK_SIZE < 1)
    by (apply Z.div_lt_upper_bound; lia).
  lia.
Qed.

(** The loop started at [i] appends the pieces at the offsets [i],
    [i + CHUNK_SIZE], ... *)
Lemma splitLoop_pieces buffer i chunks :
  0 <= i ->
  splitLoop buffer i chunks
  = chunks ++
    ((fun j : nat => take (Z.to_nat CHUNK_SIZE)
                  (drop (Z.to_nat i + j * Z.to_nat CHUNK_SIZE) buffer))
     <$> seq 0 (Z.to_nat ((Z.of_nat (length buffer) - i + CHUNK_SIZE - 1)
                          / CHUNK_SIZE))).
Proof.
  pose proof CHUNK_SIZE_pos as Hpos.
  funelim (splitLoop buffer i chunks); intros Hi.
  - rewrite H by lia. rewrite (remaining_step _ i) by done.
    rewrite <- app_assoc. f_equal. rewrite slice_inside by lia.
    rewrite <- cons_seq, fmap_cons, Nat.mul_0_l, Nat.add_0_r.
    change ([?x] ++ ?l) with (x :: l). f_equal.
    rewrite <- fmap_S_seq, <- list_fmap_compose.
    apply list_fmap_ext. intros _ j _. unfold compose.
    rewrite Nat.mul_succ_l. do 2 f_equal. lia.
  - rewrite remaining_done by lia. change (seq 0 0) with (@nil nat).
    by rewrite fmap_nil, app_nil_r.
Qed.

(** X1 (number of chunks): [splitIntoChunks] returns the payload length
    divided by [CHUNK_SIZE], rounded up, many chunks. *)
Theorem splitIntoChunks_count (P : Buffer) :
  Z.of_nat (length (splitIntoChunks P))
  = (Z.of_nat (length P) + CHUNK_SIZE - 1) / CHUNK_SIZE.
Proof.
  pose proof CHUNK_SIZE_pos as Hpos.
  unfold splitIntoChunks. rewrite splitLoop_pieces by lia.
  rewrite app_nil_l, length_fmap, length_seq, Z.sub_0_r.
  apply Z2Nat.id, Z.div_pos; lia.
Qed.

(** X2 (chunk positions): the chunk at the 0-based position k is the
    [CHUNK_SIZE] bytes of the payload from the offset k * [CHUNK_SIZE], cut
    short by the end of the payload; and there is one chunk for every such
    offset inside the payload. *)
Theorem splitIntoChunks_positions (P : Buffer) :
  splitIntoChunks P
  = (fun k : nat => take (Z.to_nat CHUNK_SIZE)
                 (drop (k * Z.to_nat CHUNK_SIZE) P))
    <$> seq 0 (Z.to_nat ((Z.of_nat (length P) + CHUNK_SIZE - 1) / CHUNK_SIZE)).
Proof.
  unfold splitIntoChunks. rewrite splitLoop_pieces by lia.
  by rewrite app_nil_l, Z.sub_0_r.
Qed.

(** X3 (small payloads): a non-empty payload of at most [CHUNK_SIZE] bytes
    is one chunk, the payload itself. *)
Theorem splitIntoChunks_small (P : Buffer) :
  P <> [] -> Z.of_nat (length P) <= CHUNK_SIZE -> splitIntoChunks P = [P].
Proof.
  intros Hne Hlen. pose proof CHUNK_SIZE_pos as Hpos.
  assert (0 < Z.of_nat (length P)) by (destruct P; [done | simpl; lia]).
  unfold splitIntoChunks.
  rewrite splitLoop_step by lia. rewrite splitLoop_done by lia.
  change (Z.to_nat 0) with 0%nat. rewrite drop_0, take_ge by lia. done.
Qed.

Lemma splitIntoChunks_small_witness : splitIntoChunks ["a"%byte] = [["a"%byte]].
Proof.
  apply (splitIntoChunks_small ["a"%byte]); [discriminate|].
  change (length ["a"%byte]) with 1%nat. pose proof CHUNK_SIZE_pos. lia.
Defined.

(** X4 (splitting a concatenation): when the first part is a whole number of
    chunks long, the chunks of [A ++ B] are the chunks of [A] followed by the
    chunks of [B]. *)
Theorem splitIntoChunks_app (A B : Buffer) (m : nat) :
  length A = (m * Z.to_nat CHUNK_SIZE)%nat ->
  splitIntoChunks (A ++ B) = splitIntoChunks A ++ splitIntoChunks B.
Proof.
  intros HA. pose proof CHUNK_SIZE_pos as Hpos.
  rewrite !splitIntoChunks_positions, length_app, HA.
  assert (Z.of_nat (Z.to_nat CHUNK_SIZE) = CHUNK_SIZE) as HL by lia.
  set (L := Z.to_nat CHUNK_SIZE) in *. clearbody L.
  set (nB := Z.to_nat ((Z.of_nat (length B) + CHUNK_SIZE - 1) / CHUNK_SIZE)).
  assert (Z.to_nat ((Z.of_nat (m * L) + CHUNK_SIZE - 1) / CHUNK_SIZE) = m)
    as ->.
  { replace (Z.of_nat (m * L) + CHUNK_SIZE - 1)
      with (Z.of_nat m * CHUNK_SIZE + (CHUNK_SIZE - 1)) by nia.
    rewrite Z.div_add_l, (Z.div_small (CHUNK_SIZE - 1)) by lia. lia. }
  assert (Z.to_nat ((Z.of_nat (m * L + length B) + CHUNK_SIZE - 1) / CHUNK_SIZE)
          = (m + nB)%nat) as ->.
  { replace (Z.of_nat (m * L + length B) + CHUNK_SIZE - 1)
      with (Z.of_nat m * CHUNK_SIZE + (Z.of_nat (length B) + CHUNK_SIZE - 1))
      by nia.
    rewrite Z.div_add_l by lia.
    assert (0 <= (Z.of_nat (length B) + CHUNK_SIZE - 1) / CHUNK_SIZE)
      by (apply Z.div_pos; lia).
    subst nB. lia. }
  rewrite seq_app, fmap_app. f_equal.
  - apply list_fmap_ext. intros i k [-> Hk]%lookup_seq. simpl.
    assert (i * L + L <= m * L)%nat by nia.
    rewrite drop_app_le by lia.
    apply take_app_le. rewrite length_drop. lia.
  - replace (seq (0 + m) nB) with ((fun j => m + j)%nat <$> seq 0 nB)
      by (rewrite fmap_add_seq; f_equal; lia).
    rewrite <- list_fmap_compose.
    apply list_fmap_ext. intros _ j _. unfold compose.
    rewrite drop_app_ge by nia. do 2 f_equal. nia.
Qed.

Lemma splitIntoChunks_app_witness :
  splitIntoChunks (replicate (Z.to_nat CHUNK_SIZE) "000"%byte ++ ["001"%byte])
  = splitIntoChunks (replicate (Z.to_nat CHUNK_SIZE) "000"%byte)
    ++ splitIntoChunks ["001"%byte].
Proof.
  apply (splitIntoChunks_app _ _ 1). rewrite length_replicate. lia.
Defined.

(** ** What a send puts on the wire, against any transport *)

(** The requests of the upload loop are built from the chunks, one by one and
    in order; the loop returns only after the last chunk; and it writes one
    diagnostic exactly when it exits. *)
Lemma uploadLoop_requests env p total chunks :
  forall index result messageID w,
    let run := uploadLoop env p total index chunks result messageID w in
    exists requests,
      issued run.2 = issued w ++ requests
      /\ (forall (j : nat) request,
            requests !! j = Some request ->
            exists headers messageID' data,
              chunks !! j = Some data
              /\ request
                 = uploadRequest p headers messageID' (index + j) total data)
      /\ ((exists result', run.1 = Returned result') ->
          length requests = length chunks)
      /\ (exists extra,
            diagnostics run.2 = diagnostics w ++ extra
            /\ match run.1 with
               | Exited _ => exists text, extra = [ConsoleError text]
               | _ => extra = []
               end).
Proof.
  induction chunks as [|data rest IH]; intros index result messageID w run.
  { exists []. subst run. simpl. unfold ret. simpl. rewrite app_nil_r.
    repeat split; [by intros j r | by exists []; rewrite app_nil_r]. }
  subst run. rewrite uploadLoop_cons. cbv zeta.
  set (request := uploadRequest p _ messageID index total data).
  set (w1 := mkWorld (issued w ++ [request]) _ _).
  assert (forall (j : nat) r, [request] !! j = Some r ->
            exists headers messageID' data',
              (data :: rest) !! j = Some data'
              /\ r = uploadRequest p headers messageID' (index + j) total data')
    as Hone.
  { intros [|j] r; [|done]. intros [= <-]. eexists _, _, _.
    split; [done|]. by rewrite Nat.add_0_r. }
  assert (forall result' messageID',
            let run := uploadLoop env p total (S index) rest result' messageID' w1 in
            exists requests,
              issued run.2 = issued w ++ requests
              /\ (forall (j : nat) r,
                    requests !! j = Some r ->
                    exists headers messageID'' data',
                      (data :: rest) !! j = Some data'
                      /\ r = uploadRequest p headers messageID'' (index + j)
                                           total data')
              /\ ((exists result'', run.1 = Returned result'') ->
                  length requests = length (data :: rest))
              /\ (exists extra,
                    diagnostics run.2 = diagnostics w ++ extra
                    /\ match run.1 with
                       | Exited _ => exists text, extra = [ConsoleError text]
                       | _ => extra = []
                       end)) as Hgo.
  { intros result' messageID' run.
    destruct (IH (S index) result' messageID' w1)
      as (requests & Hissued & Hshape & Hall & Hdiag).
    fold run in Hissued, Hall, Hdiag.
    exists (request :: requests).
    split; [by rewrite Hissued; simpl; rewrite <- app_assoc|]. split.
    - intros [|j] r Hr; [by apply (Hone 0%nat)|].
      destruct (Hshape j r Hr) as (headers & m & d & Hd & ->).
      eexists _, _, _. split; [done|]. f_equal. lia.
    - split; [|done]. intros Hret. simpl. by rewrite Hall. }
  destruct (axios env (issued w) request) as [next | e].
  - destruct (decide (Response.status next = 202)).
    + destruct (truthy messageID); [by apply Hgo|].
      destruct (getProperty _ _); [|by apply Hgo].
      exists [request]. simpl. split; [done|]. split; [done|].
      split; [by intros [? ?]|]. exists []. by rewrite app_nil_r.
    + exists [request]. simpl. split; [done|]. split; [done|].
      split; [by intros [? ?]|]. eexists. split; [done|]. by eexists.
  - exists [request]. simpl. split; [done|]. split; [done|].
    split; [by intros [? ?]|]. exists []. by rewrite app_nil_r.
Qed.

Lemma uploadRequest_fields p headers messageID index total data :
  let request := uploadRequest p headers messageID index total data in
  Request.method request = POST
  /\ Request.data request = Some data
  /\ Config.httpsAgent (Request.config request) = SendParams.agent p
  /\ Config.setTimeout (Request.config request) = Some 10000
  /\ (Request.url request = outboxUrl p
      \/ Request.url request = outboxChunkUrl p messageID index).
Proof.
  simpl. repeat split. destruct (truthy messageID); [by right | by left].
Qed.

Lemma sendCatch_logs e w :
  exists text,
    sendCatch e w
    = (Returned (inr e),
       mkWorld (issued w) (headerCalls w) (diagnostics w ++ [LogError text])).
Proof. destruct e as [[response | | message] | message]; by eexists. Qed.

(** The requests of a whole send. *)
Lemma sendChunkedMessage_requests env p :
  let run := sendChunkedMessage env p initial in
  let chunks := splitIntoChunks (SendParams.fileContent p) in
  (forall (k : nat) request,
     issued run.2 !! k = Some request ->
     exists headers messageID data,
       chunks !! k = Some data
       /\ request = uploadRequest p headers messageID k (length chunks)
                                  (gzip env data))
  /\ ((exists result, run.1 = Returned (inl result)) ->
      length (issued run.2) = length chunks)
  /\ match run.1 with
     | Returned (inl _) => diagnostics run.2 = []
     | Returned (inr _) => exists text, diagnostics run.2 = [LogError text]
     | Exited _ => exists text, diagnostics run.2 = [ConsoleError text]
     | Thrown _ | OutOfFuel => False
     end.
Proof.
  intros run chunks. subst run. rewrite sendChunkedMessage_unfold. cbv zeta.
  fold chunks. rewrite length_map.
  destruct (uploadLoop_requests env p (length chunks) (map (gzip env) chunks)
              0%nat (TransferResult.mk None JNull) JUndefined initial)
    as (requests & Hissued & Hshape & Hall & extra & Hdiag & Hextra).
  cbv zeta in Hissued, Hall, Hdiag, Hextra.
  destruct (uploadLoop_trace env p (length chunks) (map (gzip env) chunks)
              0%nat (TransferResult.mk None JNull) JUndefined initial)
    as (requests' & _ & _ & _ & Hverdict).
  cbv zeta in Hverdict.
  destruct (uploadLoop _ _ _ _ _ _ _ _) as [loop w'] eqn:Hloop.
  simpl in Hissued, Hall, Hdiag, Hextra, Hverdict.
  assert (forall (k : nat) request,
            issued w' !! k = Some request ->
            exists headers messageID data,
              chunks !! k = Some data
              /\ request = uploadRequest p headers messageID k (length chunks)
                                         (gzip env data)) as Hreq.
  { intros k request Hk. rewrite Hissued in Hk.
    destruct (Hshape k request Hk) as (headers & m & d & Hd & ->).
    rewrite list_lookup_fmap in Hd.
    destruct (chunks !! k) as [c|]; [|done]. injection Hd as <-.
    by eexists _, _, _. }
  destruct loop as [result | e | code |].
  - simpl. split; [done|]. split.
    + intros _. rewrite Hissued, Hall by by eexists. by rewrite length_map.
    + by rewrite Hdiag, Hextra.
  - destruct (sendCatch_logs e w') as [text Hcatch]. rewrite Hcatch. simpl.
    split; [done|]. split; [by intros [? ?]|].
    rewrite Hdiag, Hextra. by exists text.
  - simpl. split; [done|]. split; [by intros [? ?]|].
    destruct Hextra as [text ->]. rewrite Hdiag. by eexists.
  - done.
Qed.

(** X5 (requests follow the chunks): whatever the transport answers, the
    k-th request of a send is a POST whose body is the compressed k-th chunk,
    sent with the caller's agent and the timeout 10000; so chunks are never
    skipped, repeated or reordered, and there are never more requests than
    chunks. *)
Theorem upload_requests_follow_chunks env (p : SendParams.t) :
  let w := (sendChunkedMessage env p initial).2 in
  let chunks := splitIntoChunks (SendParams.fileContent p) in
  (length (issued w) <= length chunks)%nat
  /\ forall (k : nat) request,
       issued w !! k = Some request ->
       Request.method request = POST
       /\ Request.data request = gzip env <$> chunks !! k
       /\ Config.httpsAgent (Request.config request) = SendParams.agent p
       /\ Config.setTimeout (Request.config request) = Some 10000.
Proof.
  intros w chunks.
  destruct (sendChunkedMessage_requests env p) as (Hshape & _ & _).
  fold w chunks in Hshape. split.
  - destruct (decide (length (issued w) <= length chunks)%nat) as [|Hmore];
      [done|].
    destruct (lookup_lt_is_Some_2 (issued w) (length chunks)) as [r Hr]; [lia|].
    destruct (Hshape _ r Hr) as (_ & _ & d & Hd & _).
    apply lookup_lt_Some in Hd. lia.
  - intros k request Hk.
    destruct (Hshape k request Hk) as (headers & m & d & -> & ->). done.
Qed.

(** X6 (a returned result means a complete upload): when a send returns a
    result, it has sent every chunk; a server that decompresses the bodies of
    the requests and concatenates them in the order received holds the
    payload. *)
Theorem returned_upload_can_be_reassembled env (p : SendParams.t)
    (gunzip : Buffer -> Buffer) (result : TransferResult.t) :
  (forall data, gunzip (gzip env data) = data) ->
  (sendChunkedMessage env p initial).1 = Returned (inl result) ->
  exists bodies,
    Request.data <$> issued (sendChunkedMessage env p initial).2
    = Some <$> bodies
    /\ concat (gunzip <$> bodies) = SendParams.fileContent p.
Proof.
  intros Hinverse Hreturned.
  destruct (sendChunkedMessage_requests env p) as (Hshape & Hall & _).
  cbv zeta in Hshape, Hall.
  set (w := (sendChunkedMessage env p initial).2) in *.
  set (chunks := splitIntoChunks (SendParams.fileContent p)) in *.
  exists (gzip env <$> chunks). split.
  - apply list_eq. intros k. rewrite !list_lookup_fmap.
    destruct (issued w !! k) as [request|] eqn:Hk.
    + destruct (Hshape k request Hk) as (headers & m & d & -> & ->). done.
    + apply lookup_ge_None in Hk. rewrite Hall in Hk by by eexists.
      by rewrite (proj2 (lookup_ge_None chunks k)).
  - rewrite <- list_fmap_compose.
    rewrite (list_fmap_ext _ id chunks) by (intros; apply Hinverse).
    rewrite list_fmap_id. subst chunks. unfold splitIntoChunks.
    by rewrite splitLoop_concat.
Qed.

Lemma returned_upload_can_be_reassembled_witness :
  exists bodies,
    Request.data <$>
      issued (sendChunkedMessage (sampleEnv [Resolve acceptedWithId])
                                 (sampleSend ["001"%byte]) initial).2
    = Some <$> bodies
    /\ concat ((fun data => data) <$> bodies)
       = SendParams.fileContent (sampleSend ["001"%byte]).
Proof.
  apply (returned_upload_can_be_reassembled
           (sampleEnv [Resolve acceptedWithId]) (sampleSend ["001"%byte])
           (fun data => data)
           (TransferResult.mk (Some 202) (Response.data acceptedWithId))).
  - reflexivity.
  - vm_compute. reflexivity.
Defined.

(** X7 (upload headers): on every request of a send the seven upload fields
    have the values the loop assigns, whatever the header provider had put
    under those names, and every other header of the provider's set is passed
    on unchanged. *)
Theorem upload_headers_are_set env (p : SendParams.t) :
  forall (k : nat) request,
    issued (sendChunkedMessage env p initial).2 !! k = Some request ->
    let headers := headersOf request in
    let provided := generateHeaders env (SendParams.mailboxID p)
                      (SendParams.mailboxPassword p) (SendParams.sharedKey p) k in
    headers !! "content-type" = Some "application/octet-stream"
    /\ headers !! "mex-from" = Some (SendParams.mailboxID p)
    /\ headers !! "mex-to" = Some (SendParams.mailboxTarget p)
    /\ headers !! "mex-workflowid" = Some "API-DOCS-TEST"
    /\ headers !! "mex-filename" = Some "message.txt.gz"
    /\ headers !! "content-encoding" = Some "gzip"
    /\ forall key,
         key ∉ ["content-type"; "mex-from"; "mex-to"; "mex-workflowid";
                "mex-filename"; "mex-chunk-range"; "content-encoding"] ->
         headers !! key = provided !! key.
Proof.
  intros k request Hk headers provided.
  destruct (sendChunkedMessage_trace env p) as (_ & Hheaders & _).
  subst headers. rewrite (Hheaders k request Hk). fold provided.
  unfold uploadHeaders. repeat split.
  - by rewrite !lookup_insert_ne, lookup_insert_eq by done.
  - by rewrite !lookup_insert_ne, lookup_insert_eq by done.
  - by rewrite !lookup_insert_ne, lookup_insert_eq by done.
  - by rewrite !lookup_insert_ne, lookup_insert_eq by done.
  - by rewrite !lookup_insert_ne, lookup_insert_eq by done.
  - by rewrite lookup_insert_eq.
  - intros key Hkey.
    rewrite !lookup_insert_ne; [done|..]; intros <-; apply Hkey;
      repeat first [by left | right].
Qed.

Lemma upload_headers_are_set_witness :
  let env := sampleEnv [Resolve acceptedWithId] in
  let p := sampleSend ["001"%byte] in
  let request :=
    uploadRequest p (countingHeaders "X26ABC1" "password" "key" 0)
                  JUndefined 0 1 ["001"%byte] in
  let headers := headersOf request in
  let provided := generateHeaders env (SendParams.mailboxID p)
                    (SendParams.mailboxPassword p) (SendParams.sharedKey p) 0 in
  headers !! "content-type" = Some "application/octet-stream"
  /\ headers !! "mex-from" = Some (SendParams.mailboxID p)
  /\ headers !! "mex-to" = Some (SendParams.mailboxTarget p)
  /\ headers !! "mex-workflowid" = Some "API-DOCS-TEST"
  /\ headers !! "mex-filename" = Some "message.txt.gz"
  /\ headers !! "content-encoding" = Some "gzip"
  /\ forall key,
       key ∉ ["content-type"; "mex-from"; "mex-to"; "mex-workflowid";
              "mex-filename"; "mex-chunk-range"; "content-encoding"] ->
       headers !! key = provided !! key.
Proof.
  intros env p request.
  apply (upload_headers_are_set env p 0 request).
  vm_compute. reflexivity.
Defined.

Lemma Forall_removelast {A} (P : A -> Prop) (l : list A) :
  Forall P l -> Forall P (removelast l).
Proof.
  induction 1 as [|x l Hx Hl IH]; [done|]. simpl.
  destruct l; [done | by constructor].
Qed.

(** X8 (the upload never goes past a refusal): whatever the transport
    answers, every reply of a send except the last one is a response with
    status 202. *)
Theorem upload_stops_at_first_refusal env (p : SendParams.t) :
  Forall isAccepted
    (removelast (replies env [] (issued (sendChunkedMessage env p initial).2))).
Proof.
  destruct (sendChunkedMessage_trace env p) as (_ & _ & outcome & _ & Hverdict).
  cbv zeta in Hverdict.
  destruct outcome as [result | [e | message] | code |]; simpl in Hverdict.
  - by apply Forall_removelast.
  - destruct Hverdict as (before & -> & Hbefore). by rewrite removelast_last.
  - by apply Forall_removelast.
  - destruct Hverdict as (_ & before & response & -> & _ & Hbefore).
    by rewrite removelast_last.
  - done.
Qed.

(** X9 (diagnostics of a send): a send that returns a result has written no
    error-level diagnostic; one that returns an error value has written exactly
    one [log.error] line; one that ends the process has written exactly one
    [console.error] line.  A send ends in no other way: it never throws. *)
Theorem send_diagnostics env (p : SendParams.t) :
  let run := sendChunkedMessage env p initial in
  match run.1 with
  | Returned (inl _) => diagnostics run.2 = []
  | Returned (inr _) => exists text, diagnostics run.2 = [LogError text]
  | Exited _ => exists text, diagnostics run.2 = [ConsoleError text]
  | Thrown _ | OutOfFuel => False
  end.
Proof. intros run. by destruct (sendChunkedMessage_requests env p) as (_ & _ & ?). Qed.

(** ** Single chunks, missing bodies and late identifiers *)

Lemma split_small_payload (P : Buffer) :
  P <> [] -> Z.of_nat (length P) <= CHUNK_SIZE -> splitIntoChunks P = [P].
Proof.
  intros Hne Hlen. pose proof CHUNK_SIZE_pos as Hpos.
  assert (0 < Z.of_nat (length P)) by (destruct P; [done | simpl; lia]).
  unfold splitIntoChunks.
  rewrite splitLoop_step by lia. rewrite splitLoop_done by lia.
  change (Z.to_nat 0) with 0%nat. rewrite drop_0, take_ge by lia. done.
Qed.

(** X10 (single-chunk upload): a non-empty payload of at most [CHUNK_SIZE]
    bytes whose upload is answered with status 202 and a body that is not
    [null] or [undefined] takes exactly one request: a POST of the compressed
    payload to the collection endpoint with the chunk range "1:1".  The result
    carries that response when its body is truthy and stays
    [{ status: null, data: null }] otherwise. *)
Theorem single_chunk_upload env (p : SendParams.t) (response : Response.t)
    (identifier : JSValue) :
  let P := SendParams.fileContent p in
  let request :=
    uploadRequest p
      (generateHeaders env (SendParams.mailboxID p)
         (SendParams.mailboxPassword p) (SendParams.sharedKey p) 0)
      JUndefined 0 1 (gzip env P) in
  P <> [] ->
  Z.of_nat (length P) <= CHUNK_SIZE ->
  axios env [] request = Resolve response ->
  Response.status response = 202 ->
  getProperty (Response.data response) "message_id" = inr identifier ->
  sendChunkedMessage env p initial
  = (Returned (inl (keepData (TransferResult.mk None JNull) response)),
     mkWorld [request] 1 [])
  /\ Request.url request = outboxUrl p
  /\ headersOf request !! "mex-chunk-range" = Some "1:1".
Proof.
  intros P request Hne Hlen Hreply Hstatus Hid.
  split; [|split; [done | by unfold headersOf; simpl;
                           rewrite uploadHeaders_chunk_range]].
  rewrite sendChunkedMessage_unfold. cbv zeta. fold P.
  rewrite (split_small_payload P Hne Hlen).
  change (map (gzip env) [P]) with [gzip env P].
  change (length [gzip env P]) with 1%nat.
  rewrite uploadLoop_cons. cbv zeta.
  change (issued initial) with (@nil Request.t).
  change (headerCalls initial) with 0%nat. fold request.
  rewrite Hreply, decide_True by done. simpl truthy. cbv iota.
  by rewrite Hid.
Qed.

Lemma single_chunk_upload_witness :
  let env := sampleEnv [Resolve acceptedWithId] in
  let p := sampleSend ["001"%byte] in
  let request :=
    uploadRequest p
      (generateHeaders env (SendParams.mailboxID p)
         (SendParams.mailboxPassword p) (SendParams.sharedKey p) 0)
      JUndefined 0 1 (gzip env (SendParams.fileContent p)) in
  sendChunkedMessage env p initial
  = (Returned (inl (keepData (TransferResult.mk None JNull) acceptedWithId)),
     mkWorld [request] 1 [])
  /\ Request.url request = outboxUrl p
  /\ headersOf request !! "mex-chunk-range" = Some "1:1".
Proof.
  intros env p request.
  apply (single_chunk_upload env p acceptedWithId (JStr "MSG1")).
  - discriminate.
  - change (length (SendParams.fileContent p)) with 1%nat.
    pose proof CHUNK_SIZE_pos. lia.
  - reflexivity.
  - reflexivity.
  - vm_compute. reflexivity.
Defined.

(** X11 (an accepted response without a body): when the first upload is
    answered with status 202 and a body that is [null] or [undefined], reading
    [message_id] off it throws a TypeError; the [catch] returns that error as
    the value of the send, and no further chunk is sent. *)
Theorem accepted_null_body_is_returned_as_error env (p : SendParams.t)
    (first : Buffer) (rest : list Buffer) (response : Response.t)
    (e : JSError) :
  let request :=
    uploadRequest p
      (generateHeaders env (SendParams.mailboxID p)
         (SendParams.mailboxPassword p) (SendParams.sharedKey p) 0)
      JUndefined 0 (S (length rest)) (gzip env first) in
  splitIntoChunks (SendParams.fileContent p) = first :: rest ->
  axios env [] request = Resolve response ->
  Response.status response = 202 ->
  getProperty (Response.data response) "message_id" = inl e ->
  (sendChunkedMessage env p initial).1 = Returned (inr e)
  /\ issued (sendChunkedMessage env p initial).2 = [request]
  /\ exists message, e = TypeError message.
Proof.
  intros request Hsplit Hreply Hstatus Hprop.
  rewrite sendChunkedMessage_unfold. cbv zeta. rewrite Hsplit.
  rewrite map_cons. simpl length. rewrite length_map, uploadLoop_cons. cbv zeta.
  change (issued initial) with (@nil Request.t).
  change (headerCalls initial) with 0%nat. fold request.
  rewrite Hreply, decide_True by done. simpl truthy. cbv iota. rewrite Hprop.
  destruct (sendCatch_logs e (mkWorld ([] ++ [request]) 1 (diagnostics initial)))
    as [text ->].
  repeat split. by eapply getProperty_throws.
Qed.

Lemma accepted_null_body_is_returned_as_error_witness :
  let env := sampleEnv [Resolve (Response.mk 202 "Accepted" JNull ∅)] in
  let p := sampleSend ["001"%byte] in
  let e := TypeError "Cannot read properties of null (reading 'message_id')" in
  let request :=
    uploadRequest p
      (generateHeaders env (SendParams.mailboxID p)
         (SendParams.mailboxPassword p) (SendParams.sharedKey p) 0)
      JUndefined 0 1 (gzip env ["001"%byte]) in
  (sendChunkedMessage env p initial).1 = Returned (inr e)
  /\ issued (sendChunkedMessage env p initial).2 = [request]
  /\ exists message, e = TypeError message.
Proof.
  intros env p e request.
  apply (accepted_null_body_is_returned_as_error env p ["001"%byte] []
           (Response.mk 202 "Accepted" JNull ∅) e).
  - vm_compute. reflexivity.
  - reflexivity.
  - reflexivity.
  - vm_compute. reflexivity.
Defined.

Section LateIdentifier.

Context (gz : Buffer -> Buffer)
        (gh : string -> string -> string -> nat -> gmap string string)
        (responses : list Response.t) (p : SendParams.t).

Let env := mkEnv gz gh (scripted (Resolve <$> responses)).

Hypothesis accepted : forall r, r ∈ responses -> Response.status r = 202.

(** While no truthy identifier is held, the chunks go to the collection
    endpoint; from the response that carries one on, to its endpoint. *)
Lemma uploadLoop_searching total identifier (pre : list Response.t) :
  truthy identifier = true ->
  forall holder chunks index result w (r : Response.t) (post : list Response.t),
    truthy holder = false ->
    length (issued w) = index ->
    drop index responses = pre ++ r :: post ->
    length chunks = length (pre ++ r :: post) ->
    Forall (fun x => exists v,
              getProperty (Response.data x) "message_id" = inr v
              /\ truthy v = false) pre ->
    getProperty (Response.data r) "message_id" = inr identifier ->
    let run := uploadLoop env p total index chunks result holder w in
    exists result' requests,
      run.1 = Returned result'
      /\ issued run.2 = issued w ++ requests
      /\ length requests = length chunks
      /\ forall (j : nat) request,
           requests !! j = Some request ->
           Request.url request
           = if decide (j <= length pre)%nat then outboxUrl p
             else outboxChunkUrl p identifier (index + j).
Proof.
  intros Hid.
  induction pre as [|x pre IH];
    intros holder chunks index result w r post Hholder Hlen Hdrop Hchunks
           Hpre Hprop run; subst run.
  - destruct chunks as [|data rest]; [done|]. simpl in Hchunks.
    rewrite uploadLoop_cons. cbv zeta. simpl axios.
    assert (responses !! index = Some r) as Hr.
    { rewrite <- (Nat.add_0_r index), <- lookup_drop. by rewrite Hdrop. }
    rewrite (scripted_lookup _ _ _ (Resolve r))
      by (by rewrite Hlen, list_lookup_fmap, Hr).
    rewrite decide_True by (eapply accepted, list_elem_of_lookup_2, Hr).
    rewrite Hholder, Hprop.
    assert (index + S (length rest) <= length responses)%nat as Hfit.
    { apply (f_equal length) in Hdrop. rewrite length_drop in Hdrop.
      simpl in Hdrop. lia. }
    rewrite (uploadLoop_threaded gz gh responses p accepted total identifier Hid);
      [|simpl; rewrite length_app; simpl; lia | lia].
    eexists _, _. simpl. split; [done|]. split; [by rewrite <- app_assoc|].
    split; [simpl; by rewrite length_imap|].
    intros [|j] request; simpl.
    + intros [= <-]. simpl. by rewrite Hholder.
    + rewrite list_lookup_imap. destruct (rest !! j); [|done]. simpl.
      intros [= <-]. simpl. rewrite Hid. do 2 f_equal. lia.
  - destruct chunks as [|data rest]; [done|]. simpl in Hchunks.
    apply Forall_cons in Hpre as [(v & Hv & Hfalsy) Hpre].
    rewrite uploadLoop_cons. cbv zeta. simpl axios.
    assert (responses !! index = Some x) as Hx.
    { rewrite <- (Nat.add_0_r index), <- lookup_drop. by rewrite Hdrop. }
    rewrite (scripted_lookup _ _ _ (Resolve x))
      by (by rewrite Hlen, list_lookup_fmap, Hx).
    rewrite decide_True by (eapply accepted, list_elem_of_lookup_2, Hx).
    rewrite Hholder, Hv.
    set (request := uploadRequest p _ holder index total data).
    set (w1 := mkWorld (issued w ++ [request]) _ _).
    destruct (IH v rest (S index) (keepData result x) w1 r post)
      as (result' & requests & Hret & Hissued & Hcount & Hurls); try done.
    { simpl. rewrite length_app. simpl. lia. }
    { rewrite (drop_S _ _ _ Hx) in Hdrop. by injection Hdrop. }
    { by injection Hchunks. }
    exists result', (request :: requests). split; [done|].
    split; [by rewrite Hissued; simpl; rewrite <- app_assoc|].
    split; [simpl; by rewrite Hcount|].
    intros [|j] r' Hr'.
    + injection Hr' as <-. simpl. by rewrite Hholder.
    + rewrite (Hurls j r' Hr'). simpl.
      destruct (decide (j <= length pre)%nat);
        [by rewrite decide_True by lia|].
      rewrite decide_False by lia. do 2 f_equal. lia.
Qed.

End LateIdentifier.

(** X12 (where the identifier comes from): when every upload is answered
    with status 202, the identifier put in the URLs is the [message_id] of the
    first response that carries a truthy one (here a non-empty string), not
    necessarily of the first response: up to and including the request
    answered by that response the chunks go to
    [<url>/messageexchange/<mailboxID>/outbox], and the chunk at every later
    0-based position k goes to
    [<url>/messageexchange/<mailboxID>/outbox/<identifier>/<k+1>]. *)
Theorem identifier_of_first_response_that_has_one gz gh (p : SendParams.t)
    (pre : list Response.t) (r : Response.t) (post : list Response.t)
    (identifier : string) :
  length (pre ++ r :: post)
  = length (splitIntoChunks (SendParams.fileContent p)) ->
  (forall x, x ∈ pre ++ r :: post -> Response.status x = 202) ->
  Forall (fun x => exists v,
            getProperty (Response.data x) "message_id" = inr v
            /\ truthy v = false) pre ->
  getProperty (Response.data r) "message_id" = inr (JStr identifier) ->
  identifier <> EmptyString ->
  let run := sendChunkedMessage
               (mkEnv gz gh (scripted (Resolve <$> pre ++ r :: post)))
               p initial in
  (exists result, run.1 = Returned (inl result))
  /\ length (issued run.2) = length (pre ++ r :: post)
  /\ forall (k : nat) request,
       issued run.2 !! k = Some request ->
       Request.url request
       = if decide (k <= length pre)%nat
         then SendParams.url p +:+ "/messageexchange/"
              +:+ SendParams.mailboxID p +:+ "/outbox"
         else SendParams.url p +:+ "/messageexchange/"
              +:+ SendParams.mailboxID p +:+ "/outbox/" +:+ identifier
              +:+ "/" +:+ pretty (k + 1)%nat.
Proof.
  intros Hlen Hacc Hpre Hprop Hne run. subst run.
  assert (truthy (JStr identifier) = true) as Hid
    by (simpl; by rewrite bool_decide_eq_false_2).
  rewrite sendChunkedMessage_unfold. cbv zeta. simpl gzip.
  destruct (uploadLoop_searching gz gh (pre ++ r :: post) p Hacc
              (length (map gz (splitIntoChunks (SendParams.fileContent p))))
              (JStr identifier) pre Hid JUndefined
              (map gz (splitIntoChunks (SendParams.fileContent p)))
              0%nat (TransferResult.mk None JNull) initial r post)
    as (result & requests & Hret & Hissued & Hcount & Hurls); try done.
  { by rewrite length_map. }
  cbv zeta in Hret, Hissued.
  destruct (uploadLoop _ _ _ _ _ _ _ _) as [outcome w].
  simpl in Hret, Hissued. subst outcome. simpl.
  split; [by eexists|]. rewrite Hissued.
  split; [by rewrite Hcount, length_map|].
  intros k request Hk. rewrite (Hurls k request Hk).
  by destruct (decide (k <= length pre)%nat).
Qed.

Lemma identifier_of_first_response_that_has_one_witness :
  let run := sendChunkedMessage
               (mkEnv (fun data => data) countingHeaders
                  (scripted (Resolve <$> [acceptedEmpty]
                                          ++ acceptedWithId :: [acceptedEmpty])))
               (sampleSend threeChunkPayload) initial in
  (exists result, run.1 = Returned (inl result))
  /\ Request.url <$> issued run.2
     = ["https://mesh.example/messageexchange/X26ABC1/outbox";
        "https://mesh.example/messageexchange/X26ABC1/outbox";
        "https://mesh.example/messageexchange/X26ABC1/outbox/MSG1/3"].
Proof.
  destruct (identifier_of_first_response_that_has_one (fun data => data)
              countingHeaders (sampleSend threeChunkPayload)
              [acceptedEmpty] acceptedWithId [acceptedEmpty] "MSG1")
    as (Hreturned & Hlen & Hurls).
  - change (SendParams.fileContent _) with threeChunkPayload.
    rewrite splitIntoChunks_threeChunkPayload. reflexivity.
  - intros x Hx. apply list_elem_of_In in Hx.
    destruct Hx as [<- | [<- | [<- | []]]]; reflexivity.
  - apply Forall_cons. split; [|by apply Forall_nil].
    exists JUndefined. split; reflexivity.
  - vm_compute. reflexivity.
  - discriminate.
  - split; [exact Hreturned|].
    destruct (issued _) as [|r0 [|r1 [|r2 [|r3 rs]]]]; try discriminate Hlen.
    cbn [fmap list_fmap].
    rewrite (Hurls 0%nat r0 eq_refl), (Hurls 1%nat r1 eq_refl),
      (Hurls 2%nat r2 eq_refl).
    reflexivity.
Defined.

(** ** What a download does, against any transport *)

Lemma last_shift {A} (x : A) (l : list A) (d : A) :
  List.last (x :: l) d = List.last l x.
Proof.
  revert x d. induction l as [|y l IH]; intros x d; [done|].
  change (List.last (x :: y :: l) d) with (List.last (y :: l) d).
  by rewrite !IH.
Qed.

(** The fetch loop from any state: [later] are the responses it receives
    after [response], [requests] the requests it makes.  Each request follows
    a response that announced more chunks and asks for the index after the one
    announced; the loop writes no diagnostic; and its outcome is decided by the
    last thing it received. *)
Lemma fetchLoop_story env p fuel :
  forall chunkedMessage response w,
    let run := fetchLoop fuel env p chunkedMessage response w in
    exists later requests rest,
      issued run.2 = issued w ++ requests
      /\ diagnostics run.2 = diagnostics w
      /\ replies env (issued w) requests = (Resolve <$> later) ++ rest
      /\ (forall (j : nat) request,
            requests !! j = Some request ->
            exists previous,
              (response :: later) !! j = Some previous
              /\ wantsMore previous
              /\ request
                 = Request.mk GET (inboxChunkUrl p (nextIndex previous)) None
                     (readConfig p
                        (generateHeaders env (ReadParams.mailboxID p)
                           (ReadParams.mailboxPassword p)
                           (ReadParams.sharedKey p) (headerCalls w + j)%nat)))
      /\ match run.1 with
         | Returned text =>
             rest = []
             /\ text = chunkedMessage +:+ assemble (response :: later)
             /\ stopsAt (List.last later response)
         | Thrown (TypeError _) =>
             rest = [] /\ rangeOf (List.last later response) = None
         | Thrown (FromAxios e) => rest = [Reject e]
         | OutOfFuel => rest = [] /\ length later = fuel
         | Exited _ => False
         end.
Proof.
  induction fuel as [|fuel IH]; intros chunkedMessage response w run; subst run.
  { exists [], [], []. simpl. rewrite app_nil_r.
    repeat split. by intros j r. }
  rewrite fetchLoop_S. cbv zeta.
  destruct (rangeOf response) as [[currentChunk totalChunks]|] eqn:Hrange.
  2: { exists [], [], []. simpl. rewrite app_nil_r.
       repeat split; [by intros j r | done]. }
  destruct (lessThan currentChunk totalChunks) eqn:Hless.
  2: { exists [], [], []. simpl. rewrite app_nil_r, append_empty_r.
       repeat split; [by intros j r |]. by exists currentChunk, totalChunks. }
  assert (wantsMore response) as Hmore by (by exists currentChunk, totalChunks).
  assert (nextIndex response = plusOne currentChunk) as Hnext
    by (unfold nextIndex; by rewrite Hrange).
  rewrite <- Hnext.
  set (request := Request.mk GET _ None _).
  set (w1 := mkWorld (issued w ++ [request]) _ _).
  assert (forall (j : nat) r, [request] !! j = Some r ->
            exists previous,
              (response :: []) !! j = Some previous
              /\ wantsMore previous
              /\ r = Request.mk GET (inboxChunkUrl p (nextIndex previous)) None
                       (readConfig p
                          (generateHeaders env (ReadParams.mailboxID p)
                             (ReadParams.mailboxPassword p)
                             (ReadParams.sharedKey p) (headerCalls w + j)%nat)))
    as Hone.
  { intros [|j] r; [|done]. intros [= <-]. exists response.
    repeat split; [done|]. subst request. by rewrite Nat.add_0_r. }
  destruct (axios env (issued w) request) as [next | e] eqn:Hreply.
  - destruct (IH (chunkedMessage +:+ toString (Response.data response)) next w1)
      as (later & requests & rest & Hissued & Hdiag & Hreplies & Hshape & Hout).
    cbv zeta in Hissued, Hdiag, Hout.
    exists (next :: later), (request :: requests), rest.
    split; [by rewrite Hissued; simpl; rewrite <- app_assoc|].
    split; [done|].
    split; [simpl; rewrite Hreply; f_equal; exact Hreplies|]. split.
    + intros [|j] r Hr.
      * destruct (Hone 0%nat r Hr) as (previous & [= <-] & ? & ?).
        by exists response.
      * destruct (Hshape j r Hr) as (previous & Hprev & Hwants & ->).
        exists previous. repeat split; [done..|]. simpl.
        by rewrite <- Nat.add_succ_comm.
    + rewrite (last_shift next later response).
      destruct (fetchLoop fuel env p _ next w1) as [[text | [e | m] | code |] w2];
        simpl in Hout |- *.
      * destruct Hout as (-> & -> & Hstop). repeat split; [|done].
        by rewrite append_assoc.
      * done.
      * done.
      * done.
      * destruct Hout as [-> <-]. done.
  - exists [], [request], [Reject e]. simpl. rewrite Hreply.
    repeat split. intros j r Hr.
    destruct (Hone j r Hr) as (previous & ? & ? & ?). by exists previous.
Qed.

#[local] Instance Resolve_inj : Inj (=) (=) Resolve.
Proof. by intros x y [= ->]. Qed.

(** The whole download from the initial world. *)
Lemma readMessage_story env p fuel :
  let run := readMessage fuel env p initial in
  let provider := generateHeaders env (ReadParams.mailboxID p)
                    (ReadParams.mailboxPassword p) (ReadParams.sharedKey p) in
  let request0 := Request.mk GET (inboxUrl p) None (readConfig p (provider 0%nat)) in
  exists requests,
    issued run.2 = request0 :: requests
    /\ match axios env [] request0 with
       | Reject e =>
           requests = [] /\ run.1 = Thrown (FromAxios e)
           /\ diagnostics run.2 = []
       | Resolve first =>
           if decide (Response.status first = 200) then
             requests = [] /\ run.1 = Returned (Whole first)
             /\ diagnostics run.2 = []
           else if decide (Response.status first = 206) then
             exists later rest,
               replies env [request0] requests = (Resolve <$> later) ++ rest
               /\ (forall (j : nat) request,
                     requests !! j = Some request ->
                     exists previous,
                       (first :: later) !! j = Some previous
                       /\ wantsMore previous
                       /\ request
                          = Request.mk GET
                              (inboxChunkUrl p (nextIndex previous)) None
                              (readConfig p (provider (S j))))
               /\ match run.1 with
                  | Returned result =>
                      rest = []
                      /\ result = Assembled 206 (assemble (first :: later))
                      /\ stopsAt (List.last later first)
                      /\ diagnostics run.2 = []
                  | Exited code =>
                      code = 1
                      /\ ((exists e,
                             rest = [Reject e]
                             /\ diagnostics run.2
                                = [ConsoleErrorObject (FromAxios e)])
                          \/ (exists message,
                                rest = []
                                /\ rangeOf (List.last later first) = None
                                /\ diagnostics run.2
                                   = [ConsoleErrorObject (TypeError message)]))
                  | OutOfFuel =>
                      rest = [] /\ length later = fuel
                      /\ diagnostics run.2 = []
                  | Thrown _ => False
                  end
           else
             requests = [] /\ run.1 = Exited 1
             /\ exists text, diagnostics run.2 = [ConsoleError text]
       end.
Proof.
  intros run provider request0. subst run.
  rewrite readMessage_unfold. cbv zeta.
  change (issued initial) with (@nil Request.t).
  change (headerCalls initial) with 0%nat.
  change (diagnostics initial) with (@nil Diagnostic).
  fold provider. fold request0. rewrite app_nil_l.
  destruct (axios env [] request0) as [first | e]; [|by exists []].
  destruct (decide (Response.status first = 200)) as [H200 | H200];
    [by exists []|].
  destruct (decide (Response.status first = 206)) as [H206 | H206];
    [|exists []; simpl; eauto].
  set (w1 := mkWorld [request0] 1 []).
  destruct (fetchLoop_story env p fuel EmptyString first w1)
    as (later & requests & rest & Hissued & Hdiag & Hreplies & Hshape & Hout).
  cbv zeta in Hissued, Hdiag, Hout.
  exists requests.
  destruct (fetchLoop fuel env p EmptyString first w1)
    as [[text | [e | m] | code |] w2];
    simpl in Hissued, Hdiag, Hout |- *;
    (split; [done|]); exists later, rest; (split; [done|]);
    (split; [exact Hshape|]).
  - destruct Hout as (-> & -> & Hstop). done.
  - split; [done|]. left. exists e. by rewrite Hdiag, Hout.
  - destruct Hout as [-> Hnone]. split; [done|]. right. exists m.
    by rewrite Hdiag.
  - done.
  - destruct Hout as [-> <-]. done.
Qed.

Lemma rangeOf_without_header response :
  Response.headers response !! "mex-chunk-range" = None ->
  rangeOf response = None.
Proof. unfold rangeOf. by intros ->. Qed.

Lemma stopsAt_has_range response : stopsAt response -> rangeOf response <> None.
Proof. intros (current & total & -> & _). done. Qed.

(** X13 (single-part download): when the initial response has status 200,
    [readMessage] returns that response as it is, after this one request and
    without entering the loop (no fuel is needed). *)
Theorem single_part_download env (p : ReadParams.t) (fuel : nat)
    (response : Response.t) :
  let request :=
    Request.mk GET (inboxUrl p) None
      (readConfig p (generateHeaders env (ReadParams.mailboxID p)
                       (ReadParams.mailboxPassword p) (ReadParams.sharedKey p) 0)) in
  axios env [] request = Resolve response ->
  Response.status response = 200 ->
  readMessage fuel env p initial
  = (Returned (Whole response), mkWorld [request] 1 []).
Proof.
  intros request Hreply Hstatus. rewrite readMessage_unfold. cbv zeta.
  change (issued initial) with (@nil Request.t).
  change (headerCalls initial) with 0%nat. fold request.
  by rewrite Hreply, decide_True.
Qed.

Lemma single_part_download_witness :
  let request :=
    Request.mk GET (inboxUrl sampleRead) None
      (readConfig sampleRead (countingHeaders "X26ABC1" "password" "key" 0)) in
  readMessage 0 (sampleEnv [Resolve okEmpty]) sampleRead initial
  = (Returned (Whole okEmpty), mkWorld [request] 1 []).
Proof.
  apply (single_part_download (sampleEnv [Resolve okEmpty]) sampleRead 0 okEmpty);
    reflexivity.
Defined.

(** X14 (a response without the chunk range header): when a chunked
    download (initial status 206) has received responses only, the last of them
    lacks the [mex-chunk-range] header and the loop did not run out of fuel,
    the TypeError of reading the header is caught, written out with
    [console.error], and the process ends with exit code 1. *)
Theorem missing_range_header_ends_process env (p : ReadParams.t) (fuel : nat)
    (earlier : list Response.t) (first final : Response.t) :
  let run := readMessage fuel env p initial in
  replies env [] (issued run.2) = Resolve <$> earlier ++ [final] ->
  (earlier ++ [final]) !! 0%nat = Some first ->
  Response.status first = 206 ->
  Response.headers final !! "mex-chunk-range" = None ->
  run.1 <> OutOfFuel ->
  run.1 = Exited 1
  /\ exists message, diagnostics run.2 = [ConsoleErrorObject (TypeError message)].
Proof.
  intros run Hgot Hfirst H206 Hnone Hfuel.
  destruct (readMessage_story env p fuel) as (requests & Hissued & Hstory).
  cbv zeta in Hissued, Hstory. fold run in Hissued, Hstory.
  rewrite Hissued in Hgot. simpl in Hgot.
  destruct (earlier ++ [final]) as [|head tail] eqn:Hall; [done|].
  injection Hfirst as ->. rewrite fmap_cons in Hgot.
  injection Hgot as Hreply Hgot. rewrite Hreply in Hstory.
  rewrite decide_False, decide_True in Hstory by lia.
  destruct Hstory as (later & rest & Hreplies & _ & Hout).
  rewrite Hgot in Hreplies.
  assert (rest = [] -> List.last later first = final) as Hlast.
  { intros ->. rewrite app_nil_r in Hreplies.
    apply (inj (fmap Resolve)) in Hreplies. subst tail.
    rewrite <- (last_shift first later first), <- Hall. apply last_last. }
  destruct (run.1) as [result | e | code |].
  - destruct Hout as (Hrest & _ & Hstop & _). rewrite (Hlast Hrest) in Hstop.
    apply stopsAt_has_range in Hstop.
    by rewrite rangeOf_without_header in Hstop.
  - done.
  - destruct Hout as (-> & [(e & -> & _) | (message & _ & _ & Hdiag)]).
    + destruct (exists_last (l := tail)) as (front & x & ->).
      { intros ->. by destruct later. }
      rewrite fmap_app in Hreplies. simpl in Hreplies.
      by apply app_inj_tail in Hreplies as [_ [=]].
    + split; [done | by exists message].
  - done.
Qed.

Lemma missing_range_header_ends_process_witness :
  let bare := Response.mk 206 EmptyString (JStr "a") ∅ in
  let run := readMessage 1 (sampleEnv [Resolve bare]) sampleRead initial in
  run.1 = Exited 1
  /\ exists message, diagnostics run.2 = [ConsoleErrorObject (TypeError message)].
Proof.
  intros bare.
  apply (missing_range_header_ends_process (sampleEnv [Resolve bare]) sampleRead
           1 [] bare bare); try reflexivity.
  vm_compute. discriminate.
Defined.

Lemma length_replies env history requests :
  length (replies env history requests) = length requests.
Proof.
  revert history. induction requests as [|r requests IH]; intros history;
    [done|]. simpl. by rewrite IH.
Qed.

(** X15 (what an assembled download holds): whenever [readMessage] returns
    an assembled message, its status is 206, every request of the operation was
    answered with a response, and the data is the concatenation of the bodies
    of all those responses in the order received: no body is dropped, repeated
    or reordered. *)
Theorem assembled_data_is_all_bodies env (p : ReadParams.t) (fuel : nat)
    (status : Z) (text : string) :
  let run := readMessage fuel env p initial in
  run.1 = Returned (Assembled status text) ->
  status = 206
  /\ exists responses,
       replies env [] (issued run.2) = Resolve <$> responses
       /\ text = assemble responses.
Proof.
  intros run Hret.
  destruct (readMessage_story env p fuel) as (requests & Hissued & Hstory).
  cbv zeta in Hissued, Hstory. fold run in Hissued, Hstory.
  rewrite Hissued. simpl.
  destruct (axios env [] _) as [first | e].
  2: { destruct Hstory as (_ & Hthrown & _). congruence. }
  destruct (decide (Response.status first = 200)) as [H200 | H200].
  { destruct Hstory as (_ & Hwhole & _). congruence. }
  destruct (decide (Response.status first = 206)) as [H206 | H206].
  2: { destruct Hstory as (_ & Hexit & _). congruence. }
  destruct Hstory as (later & rest & Hreplies & _ & Hout).
  rewrite Hret in Hout. destruct Hout as (-> & [= -> ->] & _).
  split; [done|]. exists (first :: later).
  by rewrite Hreplies, app_nil_r.
Qed.

Lemma assembled_data_is_all_bodies_witness :
  let env := sampleEnv (Resolve <$> [part 206 "a" "1:2"; part 200 "b" "2:2"]) in
  let run := readMessage 2 env sampleRead initial in
  206 = 206
  /\ exists responses,
       replies env [] (issued run.2) = Resolve <$> responses
       /\ "ab" = assemble responses.
Proof.
  intros env.
  apply (assembled_data_is_all_bodies env sampleRead 2 206 "ab").
  vm_compute. reflexivity.
Defined.

Lemma replies_lookup env history requests (j : nat) reply :
  replies env history requests !! j = Some reply ->
  exists request,
    requests !! j = Some request
    /\ reply = axios env (history ++ take j requests) request.
Proof.
  revert history j. induction requests as [|q requests IH];
    intros history j; [done|].
  destruct j as [|j]; simpl.
  - intros [= <-]. exists q. by rewrite app_nil_r.
  - intros Hj. destruct (IH _ _ Hj) as (request & Hrequest & ->).
    exists request. by rewrite <- app_assoc.
Qed.

Lemma scripted_plainTransport gz gh (responses : list Response.t) :
  Forall plainResponse responses ->
  plainTransport (mkEnv gz gh (scripted (Resolve <$> responses))).
Proof.
  intros Hplain history request response. simpl. unfold scripted.
  rewrite list_lookup_fmap.
  destruct (responses !! length history) as [r|] eqn:Hr; [|done].
  simpl. intros [= <-]. by eapply Forall_lookup_1.
Qed.

(** After a plain response that makes the loop go on, the fields are two
    natural numbers, the first below the second. *)
Lemma plainResponse_wantsMore response :
  plainResponse response -> wantsMore response ->
  exists current total : nat,
    rangeOf response
    = Some (Some (Num (Z.of_nat current)), Some (Num (Z.of_nat total)))
    /\ (current < total)%nat.
Proof.
  intros Hplain (c & t & Hrange & Hless). unfold rangeOf in *.
  destruct (Response.headers response !! "mex-chunk-range")
    as [chunkRange|] eqn:Hheader; [|done].
  specialize (Hplain chunkRange Hheader). unfold plainRange in Hplain.
  cbv zeta in Hrange. injection Hrange as <- <-.
  destruct (split ":" chunkRange) as [|f0 [|f1 fields]]; simpl in Hless |- *.
  - done.
  - by destruct (Number f0).
  - simpl in Hplain.
    apply Forall_cons in Hplain as [H0 Hplain].
    apply Forall_cons in Hplain as [H1 _].
    destruct (plainField_Number f0 H0) as [Hn0 | [current Hn0]];
      rewrite Hn0 in Hless |- *; [done|].
    destruct (plainField_Number f1 H1) as [Hn1 | [total Hn1]];
      rewrite Hn1 in Hless |- *; [done|].
    exists current, total. split; [done|].
    simpl in Hless. apply bool_decide_eq_true in Hless. lia.
Qed.

(** X16 (the requests of a download): against a transport whose chunk range
    headers are plain (fields that are empty, not numeric, or decimal numerals
    of safe integers), every request of [readMessage] is a GET without a body,
    made with the header set of its own invocation of the provider and with
    the caller's agent exactly when [tlsEnabled] is set; the first goes to
    [<url>/messageexchange/<mailboxID>/inbox/<messageID>], and each later one
    follows a response whose range reads as "current:total" with
    current < total and goes to
    [<url>/messageexchange/<mailboxID>/inbox/<messageID>/<current+1>]. *)
Theorem download_requests env (p : ReadParams.t) (fuel : nat) :
  plainTransport env ->
  let run := readMessage fuel env p initial in
  forall (k : nat) request,
    issued run.2 !! k = Some request ->
    Request.method request = GET
    /\ Request.data request = None
    /\ Request.config request
       = Config.mk
           (generateHeaders env (ReadParams.mailboxID p)
              (ReadParams.mailboxPassword p) (ReadParams.sharedKey p) k)
           (if ReadParams.tlsEnabled p then ReadParams.agent p else None)
           None
    /\ match k with
       | O =>
           Request.url request
           = ReadParams.url p +:+ "/messageexchange/"
             +:+ ReadParams.mailboxID p +:+ "/inbox/" +:+ ReadParams.messageID p
       | S j =>
           exists previous (current total : nat),
             replies env [] (issued run.2) !! j = Some (Resolve previous)
             /\ rangeOf previous
                = Some (Some (Num (Z.of_nat current)), Some (Num (Z.of_nat total)))
             /\ (current < total)%nat
             /\ Request.url request
                = ReadParams.url p +:+ "/messageexchange/"
                  +:+ ReadParams.mailboxID p +:+ "/inbox/"
                  +:+ ReadParams.messageID p +:+ "/"
                  +:+ pretty (current + 1)%nat
       end.
Proof.
  intros Hplain run k request.
  destruct (readMessage_story env p fuel) as (requests & Hissued & Hstory).
  cbv zeta in Hissued, Hstory. fold run in Hissued, Hstory.
  rewrite Hissued. destruct k as [|j]; simpl.
  { by intros [= <-]. }
  destruct (axios env [] _) as [first | e] eqn:Hfirst.
  2: { by destruct Hstory as (-> & _). }
  destruct (decide (Response.status first = 200)) as [H200 | H200].
  { by destruct Hstory as (-> & _). }
  destruct (decide (Response.status first = 206)) as [H206 | H206].
  2: { by destruct Hstory as (-> & _). }
  destruct Hstory as (later & rest & Hreplies & Hshape & _).
  intros Hj. destruct (Hshape j request Hj) as (previous & Hprev & Hmore & ->).
  repeat split.
  assert ((Resolve first
           :: replies env [Request.mk GET (inboxUrl p) None
                             (readConfig p
                                (generateHeaders env (ReadParams.mailboxID p)
                                   (ReadParams.mailboxPassword p)
                                   (ReadParams.sharedKey p) 0))] requests) !! j
          = Some (Resolve previous)) as Hreply.
  { destruct j as [|i]; [by injection Hprev as ->|]. simpl in Hprev |- *.
    rewrite Hreplies. apply lookup_app_l_Some.
    by rewrite list_lookup_fmap, Hprev. }
  assert (plainResponse previous) as Hprevious.
  { destruct j as [|i].
    - injection Hreply as <-. by eapply Hplain.
    - simpl in Hreply. apply replies_lookup in Hreply as (q & _ & Hq).
      symmetry in Hq. by eapply Hplain. }
  destruct (plainResponse_wantsMore previous Hprevious Hmore)
    as (current & total & Hrange & Hlt).
  exists previous, current, total. repeat split; [done..|].
  simpl. unfold inboxChunkUrl, nextIndex. rewrite Hrange. simpl.
  replace (Z.of_nat current + 1) with (Z.of_nat (current + 1)) by lia.
  by rewrite pretty_Z_of_nat.
Qed.

Lemma download_requests_witness :
  let env := sampleEnv (Resolve <$> [part 206 "a" "1:2"; part 200 "b" "2:2"]) in
  let run := readMessage 2 env sampleRead initial in
  let request :=
    Request.mk GET "https://mesh.example/messageexchange/X26ABC1/inbox/MSG1/2"
      None
      (Config.mk {[ "authorization" := "NHSMESH X26ABC1:1" ]} None None) in
  issued run.2 !! 1%nat = Some request
  /\ Request.method request = GET
  /\ Request.data request = None
  /\ Request.config request
     = Config.mk
         (generateHeaders env (ReadParams.mailboxID sampleRead)
            (ReadParams.mailboxPassword sampleRead)
            (ReadParams.sharedKey sampleRead) 1)
         (if ReadParams.tlsEnabled sampleRead then ReadParams.agent sampleRead
          else None)
         None
  /\ exists previous (current total : nat),
       replies env [] (issued run.2) !! 0%nat = Some (Resolve previous)
       /\ rangeOf previous
          = Some (Some (Num (Z.of_nat current)), Some (Num (Z.of_nat total)))
       /\ (current < total)%nat
       /\ Request.url request
          = "https://mesh.example/messageexchange/X26ABC1/inbox/MSG1/"
            +:+ pretty (current + 1)%nat.
Proof.
  intros env run request.
  assert (issued run.2 !! 1%nat = Some request) as Hrequest
    by (vm_compute; reflexivity).
  split; [exact Hrequest|].
  apply (download_requests env sampleRead 2); [|exact Hrequest].
  apply scripted_plainTransport.
  repeat (apply Forall_cons; split); [| |by apply Forall_nil];
    intros chunkRange [= <-];
    (apply Forall_cons; split; [|apply Forall_cons; split; [|by apply Forall_nil]]);
    right; right.
  - exists 1%nat. split; [reflexivity | vm_compute; discriminate].
  - exists 2%nat. split; [reflexivity | vm_compute; discriminate].
  - exists 2%nat. split; [reflexivity | vm_compute; discriminate].
  - exists 2%nat. split; [reflexivity | vm_compute; discriminate].
Defined.

(** X17 (how a download can end): a returned response has status 200 and
    was the only response; an assembled message has status 206; an error is
    thrown to the caller only when the operation made one request; the process
    ends with exit code 1 only, after exactly one diagnostic; and in every
    other case no diagnostic has been written. *)
Theorem download_outcomes env (p : ReadParams.t) (fuel : nat) :
  let run := readMessage fuel env p initial in
  match run.1 with
  | Returned (Whole response) =>
      Response.status response = 200
      /\ replies env [] (issued run.2) = [Resolve response]
      /\ diagnostics run.2 = []
  | Returned (Assembled status _) => status = 206 /\ diagnostics run.2 = []
  | Thrown e =>
      exists rejected,
        e = FromAxios rejected
        /\ replies env [] (issued run.2) = [Reject rejected]
        /\ diagnostics run.2 = []
  | Exited code => code = 1 /\ exists d, diagnostics run.2 = [d]
  | OutOfFuel =>
      length (issued run.2) = S fuel /\ diagnostics run.2 = []
  end.
Proof.
  intros run.
  destruct (readMessage_story env p fuel) as (requests & Hissued & Hstory).
  cbv zeta in Hissued, Hstory. fold run in Hissued, Hstory.
  rewrite Hissued. simpl.
  destruct (axios env [] _) as [first | e].
  2: { destruct Hstory as (-> & -> & ->). by exists e. }
  destruct (decide (Response.status first = 200)) as [H200 | H200].
  { by destruct Hstory as (-> & -> & ->). }
  destruct (decide (Response.status first = 206)) as [H206 | H206].
  2: { destruct Hstory as (-> & -> & text & ->). split; [done | by eexists]. }
  destruct Hstory as (later & rest & Hreplies & _ & Hout).
  destruct (run.1) as [result | e | code |].
  - by destruct Hout as (_ & -> & _ & ->).
  - done.
  - destruct Hout as (-> & [(e & _ & ->) | (m & _ & _ & ->)]);
      (split; [done | by eexists]).
  - destruct Hout as (-> & <- & ->). split; [|done]. f_equal.
    apply (f_equal length) in Hreplies.
    by rewrite length_replies, app_nil_r, length_fmap in Hreplies.
Qed.

(** ** A download that goes on *)

Lemma fetchLoop_forever env p :
  (forall history request,
     exists response,
       axios env history request = Resolve response /\ wantsMore response) ->
  forall fuel chunkedMessage response w,
    wantsMore response ->
    let run := fetchLoop fuel env p chunkedMessage response w in
    run.1 = OutOfFuel
    /\ length (issued run.2) = (length (issued w) + fuel)%nat.
Proof.
  intros Hserver.
  induction fuel as [|fuel IH]; intros chunkedMessage response w Hmore run;
    subst run.
  { simpl. split; [done | lia]. }
  rewrite fetchLoop_S. cbv zeta.
  destruct Hmore as (current & total & -> & ->).
  set (request := Request.mk GET _ None _).
  destruct (Hserver (issued w) request) as (next & -> & Hnext).
  destruct (IH (chunkedMessage +:+ toString (Response.data response)) next
              (mkWorld (issued w ++ [request]) (S (headerCalls w)) (diagnostics w))
              Hnext) as [Hout Hlen].
  split; [done|]. rewrite Hlen. simpl. rewrite length_app. simpl. lia.
Qed.

(** X19 (a download has no bound of its own): against a server that answers
    every request with status 206 and a well-formed chunk range "c:t" of safe
    integers with c < t, [readMessage] never returns: however many
    iterations of the loop are followed, each of them has made one more
    request and the loop has not ended. *)
Theorem download_need_not_end env (p : ReadParams.t) :
  (forall history request,
     exists response,
       axios env history request = Resolve response
       /\ Response.status response = 206
       /\ announcesMore response) ->
  forall fuel,
    let run := readMessage fuel env p initial in
    run.1 = OutOfFuel /\ length (issued run.2) = S fuel.
Proof.
  intros Hserver fuel run. subst run. rewrite readMessage_unfold. cbv zeta.
  set (request := Request.mk GET _ None _).
  destruct (Hserver (issued initial) request) as (first & -> & H206 & Hmore).
  rewrite decide_False, decide_True by lia.
  destruct (fetchLoop_forever env p) with
    (fuel := fuel) (chunkedMessage := EmptyString) (response := first)
    (w := mkWorld (issued initial ++ [request]) (S (headerCalls initial))
                  (diagnostics initial)) as [Hout Hlen].
  { intros history q. destruct (Hserver history q) as (r & ? & _ & ?).
    exists r. split; [done|]. by apply announcesMore_wantsMore. }
  { by apply announcesMore_wantsMore. }
  cbv zeta in Hout, Hlen.
  destruct (fetchLoop fuel env p EmptyString first _) as [outcome w2].
  simpl in Hout, Hlen. subst outcome. by split.
Qed.

Lemma download_need_not_end_witness :
  let run := readMessage 3 stuckEnv sampleRead initial in
  run.1 = OutOfFuel /\ length (issued run.2) = 4%nat.
Proof.
  refine (download_need_not_end stuckEnv sampleRead _ 3).
  intros history request. exists (part 206 EmptyString "1:2").
  split; [reflexivity|]. split; [reflexivity|].
  exists 1%nat, 2%nat. repeat split; [vm_compute; discriminate.. | lia].
Defined.

(** ** The chunk range, written and read *)

(** X20 (the uploader's chunk range is the downloader's): a response that
    carries the header set which the upload loop builds for the chunk at the
    0-based position [index] of [total] is read by the download loop as chunk
    [index + 1] of [total]; the loop asks for more exactly when
    [index + 1 < total]. *)
Theorem uploaded_chunk_range_reads_back (p : SendParams.t)
    (headers : gmap string string) (index total : nat)
    (status : Z) (statusText : string) (data : JSValue) :
  let response :=
    Response.mk status statusText data (uploadHeaders p headers index total) in
  rangeOf response
  = Some (Some (Num (Z.of_nat (index + 1))), Some (Num (Z.of_nat total)))
  /\ (wantsMore response <-> (index + 1 < total)%nat)
  /\ (stopsAt response <-> (total <= index + 1)%nat).
Proof.
  intros response.
  assert (rangeOf response
          = Some (Some (Num (Z.of_nat (index + 1))), Some (Num (Z.of_nat total))))
    as Hrange by apply rangeOf_numerals, uploadHeaders_chunk_range.
  split; [done|]. unfold wantsMore, stopsAt. rewrite Hrange. split; split.
  - intros (current & total' & [= <- <-] & Hless). simpl in Hless.
    apply bool_decide_eq_true in Hless. lia.
  - intros Hlt. eexists _, _. split; [done|]. simpl.
    apply bool_decide_eq_true. lia.
  - intros (current & total' & [= <- <-] & Hless). simpl in Hless.
    apply bool_decide_eq_false in Hless. lia.
  - intros Hle. eexists _, _. split; [done|]. simpl.
    apply bool_decide_eq_false. lia.
Qed.

(** ** The message count *)

(** X21 ([getMessageCount]): the function makes exactly one request, a GET
    on the inbox of the mailbox, with the agent exactly when [ssl_enabled] is
    set.  It returns the response only when its status is 200; a response with
    another status ends the process with exit code 1 after one diagnostic that
    names the status; and a request that the transport rejects is thrown to the
    caller: the [catch] does not cover the call, so nothing is written. *)
Theorem getMessageCount_outcomes env
    (url mailbox_id mailbox_password shared_key : string)
    (ssl_enabled : bool) (agent : option Agent) (w : World) :
  let run := getMessageCount env url mailbox_id mailbox_password shared_key
                             ssl_enabled agent w in
  let request :=
    Request.mk GET (url +:+ "/messageexchange/" +:+ mailbox_id +:+ "/inbox") None
      (Config.mk
         (generateHeaders env mailbox_id mailbox_password shared_key (headerCalls w))
         (if ssl_enabled then agent else None) None) in
  issued run.2 = issued w ++ [request]
  /\ headerCalls run.2 = S (headerCalls w)
  /\ match run.1 with
     | Returned response =>
         axios env (issued w) request = Resolve response
         /\ Response.status response = 200
         /\ diagnostics run.2 = diagnostics w
     | Thrown e =>
         exists rejected,
           e = FromAxios rejected
           /\ axios env (issued w) request = Reject rejected
           /\ diagnostics run.2 = diagnostics w
     | Exited code =>
         code = 1
         /\ exists response,
              axios env (issued w) request = Resolve response
              /\ Response.status response <> 200
              /\ diagnostics run.2
                 = diagnostics w ++
                   [ConsoleError
                      ("ERROR: Request 'getMessages' completed but responded with incorrect status: "
                       +:+ pretty (Response.status response))]
     | OutOfFuel => False
     end.
Proof.
  intros run request. subst run.
  unfold getMessageCount, axiosGet, tryCatch. run_step. fold request.
  destruct (axios env (issued w) request) as [response | e]; simpl.
  - destruct (decide (Response.status response = 200)) as [H200 | H200]; simpl.
    + done.
    + repeat split. by exists response.
  - repeat split. by exists e.
Qed.
